(** * pi-led-racer: the WS2812 strip controller and the arcade button reader

    A shallow embedding of [resource/ws2812_led_control.py] and of the polling
    loop of [resource/arcade_button_reader.py].  Python integers are [Z];
    an RGB colour is a triple of [Z]; the controller object is a record and
    every method a function from the object before the call to the object
    after it.  The vendor strip object ([rpi_ws281x.PixelStrip]) keeps, next
    to its pixel buffer, the list of calls it has received, so that the
    flushes and writes a method performs can be counted. *)

From stdpp Require Import base numbers list list_numbers strings.

Open Scope Z_scope.

(** ** Python's [range] *)

(** [range(stop)] *)
Definition range (stop : Z) : list Z := seqZ 0 stop.

(** [range(start, stop, step)]; a zero step raises in Python and is not
    used by the program. *)
Definition range_step (start stop step : Z) : list Z :=
  if 0 <? step then
    (fun k => start + k * step) <$> seqZ 0 ((stop - start + step - 1) / step)
  else if step <? 0 then
    (fun k => start + k * step) <$> seqZ 0 ((start - stop - step - 1) / (- step))
  else [].

(** ** The vendor strip object *)

Definition color : Type := Z * Z * Z.

Module PixelStrip.

(** The calls the controller makes on the strip object. *)
Inductive call : Type :=
| CallBegin
| CallSetPixelColor (n : Z) (c : color)
| CallShow
| CallSetBrightness (b : Z).

(** Modelled from the spec: the [PixelStrip] class of the vendor library
    [rpi_ws281x], which is imported by the program and not part of it.
    Its pixel buffer is an ordered sequence of RGB triples whose length is
    the configured LED count; [calls] lists the calls received, oldest
    first. *)
Record t : Type := mk {
  pixels : list color;
  brightness : Z;
  calls : list call
}.

(** Modelled from the spec: the vendor's colour constructor [Color(r, g, b)];
    a pixel is the RGB triple itself. *)
Definition Color (r g b : Z) : color := (r, g, b).

(** Modelled from the spec: the vendor's constructor
    [PixelStrip(num, ..., brightness, ...)].  The buffer contents are
    undefined before the first write: [mem] stands for whatever the
    memory holds. *)
Definition new (num brightness : Z) (mem : nat -> color) : t :=
  {| pixels := mem <$> seq 0 (Z.to_nat num);
     brightness := brightness;
     calls := [] |}.

(** Modelled from the spec: the vendor's [begin()], the hardware
    initialisation; buffer and brightness are as before. *)
Definition begin (s : t) : t :=
  {| pixels := pixels s;
     brightness := brightness s;
     calls := calls s ++ [CallBegin] |}.

(** Modelled from the spec: the vendor's [setPixelColor(n, color)] writes
    one RGB triple into the buffer at [n].  An index outside the buffer
    stores nothing; the controller never passes one. *)
Definition setPixelColor (n : Z) (c : color) (s : t) : t :=
  {| pixels := if 0 <=? n then <[Z.to_nat n := c]> (pixels s) else pixels s;
     brightness := brightness s;
     calls := calls s ++ [CallSetPixelColor n c] |}.

(** Modelled from the spec: the vendor's [show()] flushes the buffer to
    the physical strip and leaves the buffer as it is. *)
Definition show (s : t) : t :=
  {| pixels := pixels s;
     brightness := brightness s;
     calls := calls s ++ [CallShow] |}.

(** Modelled from the spec: the vendor's [setBrightness(b)] stores the
    scalar that scales the pixel output of the next flush. *)
Definition setBrightness (b : Z) (s : t) : t :=
  {| pixels := pixels s;
     brightness := b;
     calls := calls s ++ [CallSetBrightness b] |}.

(** Number of flushes among a list of calls. *)
Fixpoint flushes (cs : list call) : nat :=
  match cs with
  | [] => 0%nat
  | CallShow :: rest => S (flushes rest)
  | _ :: rest => flushes rest
  end.

(** The indices written by a list of calls. *)
Definition written (cs : list call) : list Z :=
  omap (fun c => match c with CallSetPixelColor n _ => Some n | _ => None end) cs.

End PixelStrip.

(** ** The controller: [class WS2812Controller] *)

Module WS2812Controller.

Record t : Type := mk {
  led_count : Z;
  brightness : Z;
  strip : PixelStrip.t
}.

(** A call [self.strip.m(...)]: only the strip object changes. *)
Definition on_strip (m : PixelStrip.t -> PixelStrip.t) (self : t) : t :=
  {| led_count := led_count self;
     brightness := brightness self;
     strip := m (strip self) |}.

(** [__init__(led_count, pin, freq_hz, dma, invert, brightness, channel)];
    the pin, frequency, DMA, invert and channel arguments only reach the
    hardware set-up. *)
Definition init (led_count brightness : Z) (mem : nat -> color) : t :=
  {| led_count := led_count;
     brightness := brightness;
     strip := PixelStrip.begin (PixelStrip.new led_count brightness mem) |}.

Definition set_pixel (pixel_id : Z) (c : color) (self : t) : t :=
  if (0 <=? pixel_id) && (pixel_id <? led_count self) then
    let '(r, g, b) := c in
    on_strip (PixelStrip.setPixelColor pixel_id (PixelStrip.Color r g b)) self
  else self.

Definition set_all_pixels (c : color) (self : t) : t :=
  let '(r, g, b) := c in
  foldl (fun s i => on_strip (PixelStrip.setPixelColor i (PixelStrip.Color r g b)) s)
        self (range (led_count self)).

Definition clear (self : t) : t :=
  on_strip PixelStrip.show (set_all_pixels (0, 0, 0) self).

Definition show (self : t) : t := on_strip PixelStrip.show self.

Definition set_brightness (level : Z) (self : t) : t :=
  let b := Z.max 0 (Z.min 255 level) in
  {| led_count := led_count self;
     brightness := b;
     strip := PixelStrip.setBrightness b (strip self) |}.

(** *** Calls that may not return *)

(** How control leaves a call, with the controller as it is at that
    moment: the call returned; an exception was raised and the rest of the
    call was not run; or the call is held in a sleep it was asked to make
    longer than [sleep_max_ms]. *)
Inductive outcome : Type :=
| Returned (s : t)
| Raised (s : t)
| Stalled (s : t).

(** The controller as the call left it. *)
Definition after (e : outcome) : t :=
  match e with Returned s | Raised s | Stalled s => s end.

(** The next statement runs only when the one before it returned. *)
Definition and_then (e : outcome) (next : t -> outcome) : outcome :=
  match e with Returned s => next s | _ => e end.

(** [for x in l: body]: the loop ends at the first turn that does not
    return. *)
Fixpoint for_each {B : Type} (body : t -> B -> outcome) (l : list B) (s : t) : outcome :=
  match l with
  | [] => Returned s
  | x :: rest => and_then (body s x) (for_each body rest)
  end.

(** A sleep of up to 2^31 - 1 ms (24.8 days) is one every platform makes. *)
Definition sleep_max_ms : Z := 2147483647.

(** [time.sleep(wait_ms / 1000.0)].  A negative length raises ValueError.
    Beyond [sleep_max_ms] the call does not return within that time: the
    platform stays in the sleep, or refuses a length its clock cannot take
    (OverflowError, OSError); which of the two depends on the platform. *)
Definition sleep (wait_ms : Z) (s : t) : outcome :=
  if wait_ms <? 0 then Raised s
  else if wait_ms <=? sleep_max_ms then Returned s
  else Stalled s.

(** A wait that [time.sleep] makes and returns from. *)
Definition wait_ok (wait_ms : Z) : Prop := 0 <= wait_ms <= sleep_max_ms.

(** [color_wipe(color, wait_ms)], with how the call ends. *)
Definition color_wipe_call (c : color) (wait_ms : Z) (self : t) : outcome :=
  for_each (fun s i => sleep wait_ms (on_strip PixelStrip.show (set_pixel i c s)))
           (range (led_count self)) self.

(** The controller as [color_wipe(color, wait_ms)] leaves it. *)
Definition color_wipe (c : color) (wait_ms : Z) (self : t) : t :=
  after (color_wipe_call c wait_ms self).

(** [theater_chase(color, wait_ms, iterations)], with how the call ends. *)
Definition theater_chase_call (c : color) (wait_ms iterations : Z) (self : t) : outcome :=
  for_each (fun s _ =>
    for_each (fun s q =>
      let s1 := foldl (fun s i => set_pixel (i + q) c s)
                      s (range_step 0 (led_count s) 3) in
      and_then (sleep wait_ms (on_strip PixelStrip.show s1)) (fun s2 =>
        Returned (foldl (fun s i => set_pixel (i + q) (0, 0, 0) s)
                        s2 (range_step 0 (led_count s2) 3))))
      (range 3) s)
    (range iterations) self.

(** The controller as [theater_chase(color, wait_ms, iterations)] leaves
    it. *)
Definition theater_chase (c : color) (wait_ms iterations : Z) (self : t) : t :=
  after (theater_chase_call c wait_ms iterations self).

Definition wheel (pos : Z) : color :=
  if pos <? 85 then (pos * 3, 255 - pos * 3, 0)
  else if pos <? 170 then
    let pos := pos - 85 in (255 - pos * 3, 0, pos * 3)
  else
    let pos := pos - 170 in (0, pos * 3, 255 - pos * 3).

(** The positions handed to [wheel] by [rainbow] and [rainbow_cycle]. *)
Definition rainbow_pos (i j : Z) : Z := Z.land (i + j) 255.

(** [int(i * 256 / led_count)] truncates the float quotient towards zero;
    for the integers of a strip this is the truncated integer quotient. *)
Definition rainbow_cycle_pos (led_count i j : Z) : Z :=
  Z.land (Z.quot (i * 256) led_count + j) 255.

(** [rainbow(wait_ms, iterations)], with how the call ends. *)
Definition rainbow_call (wait_ms iterations : Z) (self : t) : outcome :=
  for_each (fun s j =>
    sleep wait_ms
      (on_strip PixelStrip.show
         (foldl (fun s i => set_pixel i (wheel (rainbow_pos i j)) s)
                s (range (led_count s)))))
    (range (256 * iterations)) self.

(** The controller as [rainbow(wait_ms, iterations)] leaves it. *)
Definition rainbow (wait_ms iterations : Z) (self : t) : t :=
  after (rainbow_call wait_ms iterations self).

(** [rainbow_cycle(wait_ms, iterations)], with how the call ends. *)
Definition rainbow_cycle_call (wait_ms iterations : Z) (self : t) : outcome :=
  for_each (fun s j =>
    sleep wait_ms
      (on_strip PixelStrip.show
         (foldl (fun s i => set_pixel i (wheel (rainbow_cycle_pos (led_count s) i j)) s)
                s (range (led_count s)))))
    (range (256 * iterations)) self.

(** The controller as [rainbow_cycle(wait_ms, iterations)] leaves it. *)
Definition rainbow_cycle (wait_ms iterations : Z) (self : t) : t :=
  after (rainbow_cycle_call wait_ms iterations self).

(** One step of a fade: set the brightness, paint, flush. *)
Definition breathe_step (c : color) (s : t) (level : Z) : t :=
  on_strip PixelStrip.show (set_all_pixels c (set_brightness level s)).

Definition breathing_effect (c : color) (cycles : Z) (self : t) : t :=
  let s :=
    foldl (fun s _ =>
      let s := foldl (breathe_step c) s (range_step 0 255 5) in
      foldl (breathe_step c) s (range_step 255 0 (-5)))
      self (range cycles) in
  set_brightness 255 s.

(** [random_colors(duration)]: the wall clock decides how many frames are
    drawn and the random source which colour each pixel of a frame gets;
    [frames] holds one draw per frame the clock allows. *)
Definition random_colors (frames : list (Z -> color)) (self : t) : t :=
  foldl (fun s draw =>
    on_strip PixelStrip.show
      (foldl (fun s i => set_pixel i (draw i) s) s (range (led_count s))))
    self frames.

(** One round of [police_lights]: red, off, blue, off. *)
Definition police_round (s : t) : t :=
  let s := on_strip PixelStrip.show (set_all_pixels (255, 0, 0) s) in
  let s := on_strip PixelStrip.show (set_all_pixels (0, 0, 0) s) in
  let s := on_strip PixelStrip.show (set_all_pixels (0, 0, 255) s) in
  on_strip PixelStrip.show (set_all_pixels (0, 0, 0) s).

(** [police_lights(duration)]: [rounds] is the number of rounds the wall
    clock allows. *)
Definition police_lights (rounds : nat) (self : t) : t :=
  Nat.iter rounds police_round self.

(** The operations of the facade, as data. *)
Inductive op : Type :=
| SetPixel (pixel_id : Z) (c : color)
| SetAllPixels (c : color)
| Clear
| Flush
| SetBrightness (level : Z)
| ColorWipe (c : color) (wait_ms : Z)
| TheaterChase (c : color) (wait_ms iterations : Z)
| Rainbow (wait_ms iterations : Z)
| RainbowCycle (wait_ms iterations : Z)
| BreathingEffect (c : color) (cycles : Z)
| RandomColors (frames : list (Z -> color))
| PoliceLights (rounds : nat).

Definition run (o : op) (self : t) : t :=
  match o with
  | SetPixel i c => set_pixel i c self
  | SetAllPixels c => set_all_pixels c self
  | Clear => clear self
  | Flush => show self
  | SetBrightness level => set_brightness level self
  | ColorWipe c w => color_wipe c w self
  | TheaterChase c w n => theater_chase c w n self
  | Rainbow w n => rainbow w n self
  | RainbowCycle w n => rainbow_cycle w n self
  | BreathingEffect c n => breathing_effect c n self
  | RandomColors frames => random_colors frames self
  | PoliceLights rounds => police_lights rounds self
  end.

(** The animation routines. *)
Definition is_animation (o : op) : bool :=
  match o with
  | ColorWipe _ _ | TheaterChase _ _ _ | Rainbow _ _ | RainbowCycle _ _
  | BreathingEffect _ _ | RandomColors _ | PoliceLights _ => true
  | _ => false
  end.

(** An operation all of whose sleeps return: its wait, if it takes one, is
    one [time.sleep] makes. *)
Definition returns (o : op) : Prop :=
  match o with
  | ColorWipe _ w | TheaterChase _ w _ | Rainbow w _ | RainbowCycle w _ => wait_ok w
  | _ => True
  end.

(** The strip buffer has as many slots as the controller believes. *)
Definition sized (self : t) : Prop :=
  length (PixelStrip.pixels (strip self)) = Z.to_nat (led_count self).

(** The brightness scalar is a byte. *)
Definition brightness_ok (self : t) : Prop := 0 <= brightness self <= 255.

(** The calls an operation made: those the strip received after [self]. *)
Definition issued (self self' : t) : list PixelStrip.call :=
  drop (length (PixelStrip.calls (strip self))) (PixelStrip.calls (strip self')).

(** [emits P self self']: from [self] to [self'] the LED count is kept and
    the strip received further calls, all satisfying [P led_count]. *)
Definition emits (P : Z -> PixelStrip.call -> Prop) (self self' : t) : Prop :=
  led_count self' = led_count self /\
  exists cs, PixelStrip.calls (strip self') = PixelStrip.calls (strip self) ++ cs /\
             Forall (P (led_count self)) cs.

(** A call that writes no pixel outside a strip of [n] LEDs. *)
Definition writes_inside (n : Z) (c : PixelStrip.call) : Prop :=
  match c with
  | PixelStrip.CallSetPixelColor i _ => 0 <= i < n
  | _ => True
  end.

(** A colour whose three channels are bytes. *)
Definition byte_color (c : color) : Prop :=
  let '(r, g, b) := c in 0 <= r <= 255 /\ 0 <= g <= 255 /\ 0 <= b <= 255.

(** A call that writes no colour other than a byte triple. *)
Definition writes_bytes (n : Z) (c : PixelStrip.call) : Prop :=
  match c with
  | PixelStrip.CallSetPixelColor _ col => byte_color col
  | _ => True
  end.

(** The scalars of the controller: everything but the buffer and the
    call history. *)
Definition scalars (self : t) : Z * Z * Z :=
  (led_count self, brightness self, PixelStrip.brightness (strip self)).

(** The shape of the buffer: the LED count and the number of slots. *)
Definition shape (s : t) : Z * nat :=
  (led_count s, length (PixelStrip.pixels (strip s))).

(** The candidate indices [i + q] of one pass of [theater_chase]. *)
Definition chase_candidates (led_count q : Z) : list Z :=
  (fun i => i + q) <$> range_step 0 led_count 3.

(** The controller [main] builds: 30 LEDs at brightness 128, here on a
    strip whose memory starts out dark. *)
Definition main_controller : t := init 30 128 (fun _ => (0, 0, 0)).

(** A strip of 10 LEDs at the default brightness, as in the
    specification's end-to-end property; [red] is the wiped colour. *)
Definition ten_pixel_strip : t := init 10 255 (fun _ => (7, 7, 7)).
Definition red : color := (255, 0, 0).
Definition black : color := (0, 0, 0).

End WS2812Controller.

(** ** The arcade button polling loop *)

Module ArcadeButton.

(** [GPIO.LOW] and [GPIO.HIGH], the two values [GPIO.input] returns. *)
Inductive level : Type := LOW | HIGH.

(** The lines the loop prints. *)
Inductive report : Type :=
| Pressed (press_count : Z)
| Released.

Record state : Type := mk {
  last_state : level;
  press_count : Z
}.

Definition initial : state := {| last_state := HIGH; press_count := 0 |}.

(** One turn of the [while True] loop on the sample just read. *)
Definition step (st : state) (current_state : level) : state * option report :=
  match current_state, last_state st with
  | LOW, HIGH =>
      ({| last_state := current_state; press_count := press_count st + 1 |},
       Some (Pressed (press_count st + 1)))
  | HIGH, LOW =>
      ({| last_state := current_state; press_count := press_count st |},
       Some Released)
  | _, _ =>
      ({| last_state := current_state; press_count := press_count st |}, None)
  end.

(** The loop over a finite run of samples: what each turn printed. *)
Fixpoint poll (st : state) (samples : list level) : list (option report) :=
  match samples with
  | [] => []
  | x :: rest => let '(st', r) := step st x in r :: poll st' rest
  end.

Definition is_pressed (r : option report) : bool :=
  match r with Some (Pressed _) => true | _ => false end.

Definition is_released (r : option report) : bool :=
  match r with Some Released => true | _ => false end.

(** The sample numbers, counted from 1, at which a turn satisfied [p]. *)
Fixpoint positions (p : option report -> bool) (k : nat) (rs : list (option report)) : list nat :=
  match rs with
  | [] => []
  | r :: rest => if p r then k :: positions p (S k) rest else positions p (S k) rest
  end.

Definition pressed_at (rs : list (option report)) : list nat := positions is_pressed 1 rs.
Definition released_at (rs : list (option report)) : list nat := positions is_released 1 rs.

(** The sample sequence of the specification's edge-detection property. *)
Definition spec_samples : list level := [HIGH; HIGH; LOW; LOW; HIGH].

End ArcadeButton.

(** ** Observations of a run *)

Module Observe.
Import WS2812Controller.

(** The buffer of the controller's strip. *)
Definition buffer (s : t) : list color := PixelStrip.pixels (strip s).

(** The flushes the strip has received so far. *)
Definition shown (s : t) : nat := PixelStrip.flushes (PixelStrip.calls (strip s)).

(** The last call the strip received. *)
Definition last_call (s : t) : option PixelStrip.call :=
  last (PixelStrip.calls (strip s)).

(** One turn [q] of the inner loop of [theater_chase] when its sleep
    returns: light every third pixel from [q], flush, and put the same
    pixels out again. *)
Definition chase_turn (c : color) (s : t) (q : Z) : t :=
  let s1 := foldl (fun s i => set_pixel (i + q) c s)
                  s (range_step 0 (led_count s) 3) in
  let s2 := on_strip PixelStrip.show s1 in
  foldl (fun s i => set_pixel (i + q) (0, 0, 0) s)
        s2 (range_step 0 (led_count s2) 3).

(** One frame of [rainbow], [rainbow_cycle] or [random_colors]: paint
    every pixel, then flush. *)
Definition frame (col : t -> Z -> color) (s : t) : t :=
  on_strip PixelStrip.show
    (foldl (fun s i => set_pixel i (col s i) s) s (range (led_count s))).

(** The flushes an operation makes on a strip of [n] LEDs when it
    returns. *)
Definition flush_count (n : Z) (o : op) : nat :=
  match o with
  | SetPixel _ _ | SetAllPixels _ | SetBrightness _ => 0%nat
  | Clear | Flush => 1%nat
  | ColorWipe _ _ => Z.to_nat n
  | TheaterChase _ _ iterations => (3 * Z.to_nat iterations)%nat
  | Rainbow _ iterations | RainbowCycle _ iterations => Z.to_nat (256 * iterations)
  | BreathingEffect _ cycles => (102 * Z.to_nat cycles)%nat
  | RandomColors fs => length fs
  | PoliceLights rounds => (4 * rounds)%nat
  end.

(** An operation whose colour arguments are triples of bytes; the
    draws of [random_colors] come from [random.randint(0, 255)]. *)
Definition byte_op (o : op) : Prop :=
  match o with
  | SetPixel _ c | SetAllPixels c | ColorWipe c _ | TheaterChase c _ _
  | BreathingEffect c _ => byte_color c
  | RandomColors fs => forall draw i, draw ∈ fs -> byte_color (draw i)
  | _ => True
  end.

(** The largest change of a channel between two colours. *)
Definition channel_step (c1 c2 : color) : Z :=
  let '(r1, g1, b1) := c1 in
  let '(r2, g2, b2) := c2 in
  Z.max (Z.abs (r2 - r1)) (Z.max (Z.abs (g2 - g1)) (Z.abs (b2 - b1))).

End Observe.

(** ** [demo_sequence] and the command loop of [main] *)

Module Program.
Import WS2812Controller.

(** What the wall clock and the random source decide while one effect
    runs: the frames [random_colors] draws and the rounds [police_lights]
    completes before their duration is over. *)
Record oracle : Type := mk_oracle {
  frames : list (Z -> color);
  rounds : nat
}.

(** [demo_sequence(controller)], without its progress lines.  Its waits,
    50 and 20 ms, are ones [time.sleep] makes, so every call returns and
    the next one runs. *)
Definition demo_sequence (k : oracle) (controller : t) : t :=
  let c := color_wipe (255, 0, 0) 50 controller in
  let c := color_wipe (0, 255, 0) 50 c in
  let c := color_wipe (0, 0, 255) 50 c in
  let c := theater_chase (127, 127, 127) 50 3 c in
  let c := rainbow 20 1 c in
  let c := rainbow_cycle 20 2 c in
  let c := breathing_effect (255, 100, 100) 2 c in
  let c := random_colors (frames k) c in
  let c := police_lights (rounds k) c in
  clear c.

(** The demo as a list of operations of the facade. *)
Definition demo_ops (k : oracle) : list op :=
  [ColorWipe (255, 0, 0) 50; ColorWipe (0, 255, 0) 50; ColorWipe (0, 0, 255) 50;
   TheaterChase (127, 127, 127) 50 3; Rainbow 20 1; RainbowCycle 20 2;
   BreathingEffect (255, 100, 100) 2; RandomColors (frames k);
   PoliceLights (rounds k); Clear].

(** The lines a turn of the command loop prints for its command. *)
Inductive message : Type :=
| LedsCleared
| AllRed
| AllGreen
| AllBlue
| StartingRainbow
| StartingPolice
| StartingRandom
| BrightnessSet (n : Z)
| InvalidBrightness
| UnknownCommand.

(** One turn of the [while True] loop of [main] on [command], the line
    read, stripped and lower-cased.  [arg command] is
    [int(command.split()[1])], [None] when that raises IndexError or
    ValueError.  The result is [None] when the loop breaks.  The effect
    of a command is taken to run to its end (no Ctrl+C). *)
Definition turn (arg : string -> option Z) (k : oracle) (command : string)
    (controller : t) : option (t * list message) :=
  if String.eqb command "quit" then None
  else if String.eqb command "demo" then Some (demo_sequence k controller, [])
  else if String.eqb command "clear" then Some (clear controller, [LedsCleared])
  else if String.eqb command "red" then
    Some (show (set_all_pixels (255, 0, 0) controller), [AllRed])
  else if String.eqb command "green" then
    Some (show (set_all_pixels (0, 255, 0) controller), [AllGreen])
  else if String.eqb command "blue" then
    Some (show (set_all_pixels (0, 0, 255) controller), [AllBlue])
  else if String.eqb command "rainbow" then
    Some (rainbow_cycle 20 10 controller, [StartingRainbow])
  else if String.eqb command "police" then
    Some (police_lights (rounds k) controller, [StartingPolice])
  else if String.eqb command "random" then
    Some (random_colors (frames k) controller, [StartingRandom])
  else if String.prefix "brightness " command then
    match arg command with
    | Some brightness => Some (set_brightness brightness controller, [BrightnessSet brightness])
    | None => Some (controller, [InvalidBrightness])
    end
  else Some (controller, [UnknownCommand]).

(** The command loop over the lines typed, each with what the clock and
    the random source decide while it runs; the loop ends at [quit] or
    when the input does. *)
Fixpoint interact (arg : string -> option Z) (inputs : list (oracle * string))
    (controller : t) : t * list message :=
  match inputs with
  | [] => (controller, [])
  | (k, command) :: rest =>
      match turn arg k command controller with
      | None => (controller, [])
      | Some (c, msgs) =>
          let '(c', more) := interact arg rest c in (c', msgs ++ more)
      end
  end.

(** [main] up to the end of the command loop: the controller of 30 LEDs
    at brightness 128, the demo, then the commands.  The [finally] step,
    [cleanup()], clears a module-level [strip] if there is one; the file
    binds no such global (the controller is a local of [main]), so it
    makes no call on this strip.  Effects are taken to run to their end
    (no Ctrl+C). *)
Definition main_session (mem : nat -> color) (arg : string -> option Z)
    (k0 : oracle) (inputs : list (oracle * string)) : t * list message :=
  interact arg inputs (demo_sequence k0 (init 30 128 mem)).

(** A line that is not [quit]. *)
Definition goes_on (input : oracle * string) : Prop := snd input <> "quit".

End Program.

(** ** The press counter of the button loop *)

Module ButtonCount.
Import ArcadeButton.

(** The state of the loop after a run of samples. *)
Definition final (st : state) (samples : list level) : state :=
  foldl (fun st x => fst (step st x)) st samples.

(** How many turns satisfied [p]. *)
Definition count (p : option report -> bool) (rs : list (option report)) : Z :=
  Z.of_nat (length (filter (fun r => p r = true) rs)).

(** 1 while the button is held down (the pin reads LOW), else 0. *)
Definition held (x : level) : Z := match x with LOW => 1 | HIGH => 0 end.

(** The press numbers printed, in order. *)
Definition press_numbers (rs : list (option report)) : list Z :=
  omap (fun r => match r with Some (Pressed n) => Some n | _ => None end) rs.

End ButtonCount.

(** * Properties *)

Import WS2812Controller.

(** ** The colour wheel *)

(** C1: for every position in [0,255] the colour wheel has the three bands
    that start at 0, 85 and 170, each with slope 3: below 85 it returns
    (pos*3, 255 - pos*3, 0); from 85 and below 170 it returns
    (255 - (pos-85)*3, 0, (pos-85)*3); from 170 on it returns
    (0, (pos-170)*3, 255 - (pos-170)*3); and wheel(0) = (0,255,0). *)
Theorem wheel_three_bands (pos : Z) :
  0 <= pos <= 255 ->
  (pos < 85 -> wheel pos = (pos * 3, 255 - pos * 3, 0)) /\
  (85 <= pos < 170 -> wheel pos = (255 - (pos - 85) * 3, 0, (pos - 85) * 3)) /\
  (170 <= pos -> wheel pos = (0, (pos - 170) * 3, 255 - (pos - 170) * 3)) /\
  wheel 0 = (0, 255, 0).
Proof.
  intros _. unfold wheel. repeat split.
  - intros H. apply Z.ltb_lt in H. now rewrite H.
  - intros [H1 H2]. apply Z.ltb_ge in H1. apply Z.ltb_lt in H2.
    now rewrite H1, H2.
  - intros H.
    assert (H1 : (pos <? 85) = false) by (apply Z.ltb_ge; lia).
    assert (H2 : (pos <? 170) = false) by (apply Z.ltb_ge; lia).
    now rewrite H1, H2.
Qed.

Lemma wheel_three_bands_at_breakpoints :
  wheel 0 = (0, 255, 0) /\ wheel 85 = (255, 0, 0) /\ wheel 170 = (0, 0, 255).
Proof.
  split; [| split].
  - apply (wheel_three_bands 0); lia.
  - apply (wheel_three_bands 85); lia.
  - apply (wheel_three_bands 170); lia.
Defined.

(** ** The brightness setter *)

(** C4: set_brightness stores the level clamped to [0,255], in the
    controller and in the strip: above 255 it stores 255 (300 gives 255),
    below 0 it stores 0 (-5 gives 0), and a level in [0,255] is stored as
    it is. *)
Theorem set_brightness_clamps (level : Z) (self : t) :
  let self' := set_brightness level self in
  (255 < level -> brightness self' = 255) /\
  (level < 0 -> brightness self' = 0) /\
  (0 <= level <= 255 -> brightness self' = level) /\
  brightness (set_brightness 300 self) = 255 /\
  brightness (set_brightness (-5) self) = 0 /\
  PixelStrip.brightness (strip self') = brightness self'.
Proof.
  cbn. repeat split; intros; lia.
Qed.

Lemma set_brightness_clamps_examples :
  brightness (set_brightness 300 main_controller) = 255 /\
  brightness (set_brightness (-5) main_controller) = 0 /\
  brightness (set_brightness 77 main_controller) = 77.
Proof.
  pose proof (set_brightness_clamps 300 main_controller) as (H1 & _).
  pose proof (set_brightness_clamps (-5) main_controller) as (_ & H2 & _).
  pose proof (set_brightness_clamps 77 main_controller) as (_ & _ & H3 & _).
  split; [apply H1; lia | split; [apply H2; lia | apply H3; lia]].
Defined.

(** ** The button edge detector *)

Section Button.
Import ArcadeButton.

Lemma step_last_state st x : last_state (fst (step st x)) = x.
Proof. unfold step. destruct x, (last_state st); reflexivity. Qed.

Lemma step_pressed_iff st x :
  is_pressed (snd (step st x)) = true <-> last_state st = HIGH /\ x = LOW.
Proof.
  unfold step. destruct x, (last_state st); cbn; split; intros H;
    try discriminate; try (destruct H; discriminate); auto.
Qed.

Lemma step_released_iff st x :
  is_released (snd (step st x)) = true <-> last_state st = LOW /\ x = HIGH.
Proof.
  unfold step. destruct x, (last_state st); cbn; split; intros H;
    try discriminate; try (destruct H; discriminate); auto.
Qed.

(** Turn [i] reports a press exactly when sample [i] is LOW and the one
    before it (the initial [last_state] for the first turn) is HIGH. *)
Lemma poll_pressed_iff samples : forall st (i : nat),
  (exists r, poll st samples !! i = Some r /\ is_pressed r = true) <->
  (last_state st :: samples) !! i = Some HIGH /\ samples !! i = Some LOW.
Proof.
  induction samples as [|y rest IH]; intros st i.
  - cbn. split; [intros (r & H & _) | intros [_ H]]; destruct i; discriminate.
  - cbn [poll]. destruct (step st y) as [st' r0] eqn:E.
    assert (L : last_state st' = y).
    { pose proof (step_last_state st y) as S. rewrite E in S. exact S. }
    assert (R : r0 = snd (step st y)) by (rewrite E; reflexivity).
    destruct i as [|i]; cbn.
    + rewrite R. split.
      * intros (r & H & Hp). injection H as <-.
        apply step_pressed_iff in Hp as [-> ->]. auto.
      * intros [H1 H2]. injection H1 as H1. injection H2 as H2.
        eexists. split; [reflexivity|]. apply step_pressed_iff. auto.
    + specialize (IH st' i). rewrite L in IH. exact IH.
Qed.

Lemma poll_released_iff samples : forall st (i : nat),
  (exists r, poll st samples !! i = Some r /\ is_released r = true) <->
  (last_state st :: samples) !! i = Some LOW /\ samples !! i = Some HIGH.
Proof.
  induction samples as [|y rest IH]; intros st i.
  - cbn. split; [intros (r & H & _) | intros [_ H]]; destruct i; discriminate.
  - cbn [poll]. destruct (step st y) as [st' r0] eqn:E.
    assert (L : last_state st' = y).
    { pose proof (step_last_state st y) as S. rewrite E in S. exact S. }
    assert (R : r0 = snd (step st y)) by (rewrite E; reflexivity).
    destruct i as [|i]; cbn.
    + rewrite R. split.
      * intros (r & H & Hp). injection H as <-.
        apply step_released_iff in Hp as [-> ->]. auto.
      * intros [H1 H2]. injection H1 as H1. injection H2 as H2.
        eexists. split; [reflexivity|]. apply step_released_iff. auto.
    + specialize (IH st' i). rewrite L in IH. exact IH.
Qed.
End Button.

(** C3, as stated, fails: on [HIGH,HIGH,LOW,LOW,HIGH] the press is not
    reported at the second sample (which is HIGH after HIGH). *)
Lemma press_not_at_second_sample :
  ~ (ArcadeButton.pressed_at (ArcadeButton.poll ArcadeButton.initial ArcadeButton.spec_samples) = [2%nat] /\
     ArcadeButton.released_at (ArcadeButton.poll ArcadeButton.initial ArcadeButton.spec_samples) = [5%nat]).
Proof. cbv. intros [H _]. discriminate H. Qed.

(** C3, amended: starting with previous state HIGH, the samples
    [HIGH,HIGH,LOW,LOW,HIGH] give exactly one press, reported at the third
    sample, and exactly one release, reported at the fifth; in general a
    turn reports a press exactly on a HIGH-to-LOW transition of
    consecutive samples and a release exactly on a LOW-to-HIGH one. *)
Theorem edge_detection :
  ArcadeButton.poll ArcadeButton.initial ArcadeButton.spec_samples
    = [None; None; Some (ArcadeButton.Pressed 1); None; Some ArcadeButton.Released] /\
  ArcadeButton.pressed_at (ArcadeButton.poll ArcadeButton.initial ArcadeButton.spec_samples) = [3%nat] /\
  ArcadeButton.released_at (ArcadeButton.poll ArcadeButton.initial ArcadeButton.spec_samples) = [5%nat] /\
  (forall st samples (i : nat),
     (exists r, ArcadeButton.poll st samples !! i = Some r /\
                ArcadeButton.is_pressed r = true) <->
     (ArcadeButton.last_state st :: samples) !! i = Some ArcadeButton.HIGH /\
     samples !! i = Some ArcadeButton.LOW) /\
  (forall st samples (i : nat),
     (exists r, ArcadeButton.poll st samples !! i = Some r /\
                ArcadeButton.is_released r = true) <->
     (ArcadeButton.last_state st :: samples) !! i = Some ArcadeButton.LOW /\
     samples !! i = Some ArcadeButton.HIGH).
Proof.
  split; [reflexivity|]. split; [reflexivity|]. split; [reflexivity|].
  split; intros st samples i.
  - apply poll_pressed_iff.
  - apply poll_released_iff.
Qed.

(** ** Loops as folds *)

Section Folds.
Context {A B : Type}.

(** A loop invariant: what holds before the loop and is kept by every
    turn holds after it. *)
Lemma foldl_invariant (I : A -> Prop) (f : A -> B -> A) (l : list B) (a : A) :
  I a -> (forall s x, x ∈ l -> I s -> I (f s x)) -> I (foldl f a l).
Proof.
  revert a. induction l as [|y l IH]; intros a Ha Hf; [exact Ha|].
  cbn. apply IH.
  - apply Hf; [left | exact Ha].
  - intros s x Hx. apply Hf. now right.
Qed.

Lemma iter_invariant (I : A -> Prop) (f : A -> A) (n : nat) (a : A) :
  I a -> (forall s, I s -> I (f s)) -> I (Nat.iter n f a).
Proof. intros Ha Hf. induction n as [|n IH]; cbn; auto. Qed.
End Folds.

Lemma range_spec (n i : Z) : i ∈ range n <-> 0 <= i < n.
Proof. unfold range. rewrite elem_of_seqZ. lia. Qed.

Lemma range_step_one (n : Z) : range_step 0 n 1 = range n.
Proof.
  unfold range_step, range. cbn [Z.ltb Z.compare].
  replace ((n - 0 + 1 - 1) / 1) with n by (rewrite Z.div_1_r; lia).
  rewrite <- (list_fmap_id (seqZ 0 n)) at 2.
  apply list_fmap_ext. intros _ k _. cbn. lia.
Qed.

(** ** Calls that may not return *)

Lemma sleep_cases w s :
  sleep w s = Returned s \/ sleep w s = Raised s \/ sleep w s = Stalled s.
Proof. unfold sleep. destruct (w <? 0); [|destruct (w <=? sleep_max_ms)]; auto. Qed.

Lemma after_sleep w s : after (sleep w s) = s.
Proof. now destruct (sleep_cases w s) as [E|[E|E]]; rewrite E. Qed.

Lemma sleep_returns w s : wait_ok w -> sleep w s = Returned s.
Proof.
  unfold wait_ok, sleep. intros [H1 H2].
  assert (E1 : (w <? 0) = false) by (apply Z.ltb_ge; lia).
  assert (E2 : (w <=? sleep_max_ms) = true) by (apply Z.leb_le; lia).
  now rewrite E1, E2.
Qed.

Lemma sleep_raises w s : w < 0 -> sleep w s = Raised s.
Proof.
  unfold sleep. intros H.
  assert (E1 : (w <? 0) = true) by (apply Z.ltb_lt; lia).
  now rewrite E1.
Qed.

(** A loop invariant holds however the loop ends. *)
Lemma for_each_invariant {B : Type} (I : t -> Prop) (body : t -> B -> outcome)
    (l : list B) : forall s,
  I s -> (forall s x, x ∈ l -> I s -> I (after (body s x))) ->
  I (after (for_each body l s)).
Proof.
  induction l as [|y l IH]; intros s Hs Hb; [exact Hs|].
  cbn [for_each]. pose proof (Hb s y (list_elem_of_here _ _) Hs) as Hy.
  destruct (body s y) as [s1|s1|s1]; cbn [and_then after] in *; [|exact Hy..].
  apply IH; [exact Hy|]. intros s2 x Hx. apply Hb. now right.
Qed.

(** What holds at a sleep and after the statements behind it holds
    however the sleep ends. *)
Lemma sleep_then_invariant (I : t -> Prop) w s (next : t -> outcome) :
  I s -> I (after (next s)) -> I (after (and_then (sleep w s) next)).
Proof.
  intros Hs Hn. now destruct (sleep_cases w s) as [E|[E|E]]; rewrite E.
Qed.

(** A loop whose turns all return is the fold of their results. *)
Lemma for_each_returned {B : Type} (body : t -> B -> outcome) (f : t -> B -> t)
    (l : list B) :
  (forall s x, body s x = Returned (f s x)) ->
  forall s, for_each body l s = Returned (foldl f s l).
Proof.
  intros Hb. induction l as [|y l IH]; intros s; [reflexivity|].
  cbn [for_each foldl]. rewrite Hb. cbn [and_then]. apply IH.
Qed.

(** With a wait the sleep makes, each routine returns, and with the
    controller the loop without the sleeps gives. *)
Lemma color_wipe_call_returns c w s :
  wait_ok w ->
  color_wipe_call c w s
  = Returned (foldl (fun s i => on_strip PixelStrip.show (set_pixel i c s))
                    s (range (led_count s))).
Proof.
  intros Hw. unfold color_wipe_call. apply for_each_returned.
  intros s' i. now apply sleep_returns.
Qed.

Lemma color_wipe_fold c w s :
  wait_ok w ->
  color_wipe c w s
  = foldl (fun s i => on_strip PixelStrip.show (set_pixel i c s)) s (range (led_count s)).
Proof. intros Hw. unfold color_wipe. now rewrite color_wipe_call_returns. Qed.

Lemma theater_chase_call_returns c w n s :
  wait_ok w ->
  theater_chase_call c w n s
  = Returned
      (foldl (fun s _ =>
         foldl (fun s q =>
           let s1 := foldl (fun s i => set_pixel (i + q) c s)
                           s (range_step 0 (led_count s) 3) in
           let s2 := on_strip PixelStrip.show s1 in
           foldl (fun s i => set_pixel (i + q) (0, 0, 0) s)
                 s2 (range_step 0 (led_count s2) 3))
           s (range 3))
         s (range n)).
Proof.
  intros Hw. unfold theater_chase_call. apply for_each_returned.
  intros s1 _. apply for_each_returned.
  intros s2 q. cbn zeta. now rewrite sleep_returns.
Qed.

Lemma rainbow_call_returns w n s :
  wait_ok w ->
  rainbow_call w n s
  = Returned
      (foldl (fun s j =>
         on_strip PixelStrip.show
           (foldl (fun s i => set_pixel i (wheel (rainbow_pos i j)) s)
                  s (range (led_count s))))
         s (range (256 * n))).
Proof.
  intros Hw. unfold rainbow_call. apply for_each_returned.
  intros s' j. now apply sleep_returns.
Qed.

Lemma rainbow_cycle_call_returns w n s :
  wait_ok w ->
  rainbow_cycle_call w n s
  = Returned
      (foldl (fun s j =>
         on_strip PixelStrip.show
           (foldl (fun s i => set_pixel i (wheel (rainbow_cycle_pos (led_count s) i j)) s)
                  s (range (led_count s))))
         s (range (256 * n))).
Proof.
  intros Hw. unfold rainbow_cycle_call. apply for_each_returned.
  intros s' j. now apply sleep_returns.
Qed.

(** ** Calls made by the operations *)

Section Emits.
Variable P : Z -> PixelStrip.call -> Prop.

Lemma emits_refl s : emits P s s.
Proof. split; [reflexivity|]. exists []. now rewrite app_nil_r. Qed.

Lemma emits_trans s1 s2 s3 : emits P s1 s2 -> emits P s2 s3 -> emits P s1 s3.
Proof.
  intros (L1 & cs1 & E1 & F1) (L2 & cs2 & E2 & F2). split; [congruence|].
  exists (cs1 ++ cs2). split.
  - now rewrite E2, E1, app_assoc.
  - apply Forall_app. split; [exact F1|]. now rewrite <- L1.
Qed.

Lemma emits_call (m : PixelStrip.t -> PixelStrip.t) (c : PixelStrip.call) s :
  (forall p, PixelStrip.calls (m p) = PixelStrip.calls p ++ [c]) ->
  P (led_count s) c -> emits P s (on_strip m s).
Proof.
  intros Hm Hc. split; [reflexivity|]. exists [c]. split; [apply Hm|].
  now constructor.
Qed.

Lemma emits_show s :
  P (led_count s) PixelStrip.CallShow -> emits P s (on_strip PixelStrip.show s).
Proof. apply (emits_call _ PixelStrip.CallShow). reflexivity. Qed.

Lemma emits_set_pixel i c s :
  (0 <= i < led_count s -> P (led_count s) (PixelStrip.CallSetPixelColor i c)) ->
  emits P s (set_pixel i c s).
Proof.
  intros H. unfold set_pixel.
  destruct ((0 <=? i) && (i <? led_count s)) eqn:E; [|apply emits_refl].
  apply andb_prop in E as [E1 E2]. destruct c as [[r g] b].
  apply (emits_call _ (PixelStrip.CallSetPixelColor i (r, g, b))); [reflexivity|].
  apply H. lia.
Qed.

Lemma emits_set_all_pixels c s :
  (forall i, 0 <= i < led_count s ->
             P (led_count s) (PixelStrip.CallSetPixelColor i c)) ->
  emits P s (set_all_pixels c s).
Proof.
  intros H. unfold set_all_pixels. destruct c as [[r g] b].
  apply (foldl_invariant (emits P s)); [apply emits_refl|].
  intros s' i Hi Hs'. apply (emits_trans _ _ _ Hs').
  apply (emits_call _ (PixelStrip.CallSetPixelColor i (r, g, b))); [reflexivity|].
  destruct Hs' as [-> _].
  apply H. now apply range_spec.
Qed.

Lemma emits_set_brightness level s :
  (forall b, P (led_count s) (PixelStrip.CallSetBrightness b)) ->
  emits P s (set_brightness level s).
Proof.
  intros H. split; [reflexivity|]. eexists. split; [reflexivity|].
  constructor; [apply H | constructor].
Qed.

Lemma emits_issued s s' :
  emits P s s' ->
  PixelStrip.calls (strip s') = PixelStrip.calls (strip s) ++ issued s s' /\
  Forall (P (led_count s)) (issued s s').
Proof.
  intros (_ & cs & E & F). unfold issued. rewrite E.
  rewrite drop_app_length. auto.
Qed.
End Emits.

Lemma land_255_byte (x : Z) : 0 <= Z.land x 255 <= 255.
Proof.
  assert (E : Z.land x 255 = x mod 256).
  { change 255 with (Z.ones 8). rewrite Z.land_ones by lia. reflexivity. }
  rewrite E. pose proof (Z.mod_pos_bound x 256) as H. lia.
Qed.

Lemma rainbow_pos_byte i j : 0 <= rainbow_pos i j <= 255.
Proof. apply land_255_byte. Qed.

Lemma rainbow_cycle_pos_byte n i j : 0 <= rainbow_cycle_pos n i j <= 255.
Proof. apply land_255_byte. Qed.

Lemma wheel_byte_color pos : 0 <= pos <= 255 -> byte_color (wheel pos).
Proof.
  intros H. unfold wheel, byte_color.
  destruct (pos <? 85) eqn:E1; [apply Z.ltb_lt in E1; lia|].
  apply Z.ltb_ge in E1.
  destruct (pos <? 170) eqn:E2; [apply Z.ltb_lt in E2 | apply Z.ltb_ge in E2];
    cbn zeta; lia.
Qed.

Section EmitsAnimations.
Variable P : Z -> PixelStrip.call -> Prop.
Hypothesis P_show : forall n, P n PixelStrip.CallShow.

(** A loop [for i in range(self.led_count): self.set_pixel(i, col)]. *)
Lemma emits_paint (col : t -> Z -> color) s :
  (forall s' i, 0 <= i < led_count s ->
                P (led_count s) (PixelStrip.CallSetPixelColor i (col s' i))) ->
  emits P s (foldl (fun s i => set_pixel i (col s i) s) s (range (led_count s))).
Proof.
  intros H. apply (foldl_invariant (emits P s)); [apply emits_refl|].
  intros s' i Hi Hs'. apply (emits_trans _ _ _ _ Hs').
  apply emits_set_pixel. destruct Hs' as [-> _]. intros Hr. now apply H.
Qed.

(** A frame: paint every pixel, then flush. *)
Lemma emits_frame (col : t -> Z -> color) s :
  (forall s' i, 0 <= i < led_count s ->
                P (led_count s) (PixelStrip.CallSetPixelColor i (col s' i))) ->
  emits P s (on_strip PixelStrip.show
               (foldl (fun s i => set_pixel i (col s i) s) s (range (led_count s)))).
Proof.
  intros H. eapply emits_trans; [apply emits_paint, H|]. apply emits_show, P_show.
Qed.

(** A loop of frames whose colours depend on the frame counter. *)
Lemma emits_frames {J : Type} (col : J -> t -> Z -> color) (js : list J) s :
  (forall j s' i, 0 <= i < led_count s ->
                  P (led_count s) (PixelStrip.CallSetPixelColor i (col j s' i))) ->
  emits P s (foldl (fun s j =>
               on_strip PixelStrip.show
                 (foldl (fun s i => set_pixel i (col j s i) s) s (range (led_count s))))
             s js).
Proof.
  intros H. apply (foldl_invariant (emits P s)); [apply emits_refl|].
  intros s' j _ Hs'. apply (emits_trans _ _ _ _ Hs').
  apply (emits_frame (col j)). destruct Hs' as [-> _]. apply H.
Qed.

Lemma emits_rainbow w n s :
  (forall i pos, 0 <= i < led_count s -> 0 <= pos <= 255 ->
                 P (led_count s) (PixelStrip.CallSetPixelColor i (wheel pos))) ->
  emits P s (rainbow w n s).
Proof.
  intros H. unfold rainbow, rainbow_call.
  apply (for_each_invariant (emits P s)); [apply emits_refl|].
  intros s' j _ Hs'. rewrite after_sleep. apply (emits_trans _ _ _ _ Hs').
  apply (emits_frame (fun _ i => wheel (rainbow_pos i j))).
  destruct Hs' as [-> _]. intros _ i Hi. apply H; [exact Hi | apply rainbow_pos_byte].
Qed.

Lemma emits_rainbow_cycle w n s :
  (forall i pos, 0 <= i < led_count s -> 0 <= pos <= 255 ->
                 P (led_count s) (PixelStrip.CallSetPixelColor i (wheel pos))) ->
  emits P s (rainbow_cycle w n s).
Proof.
  intros H. unfold rainbow_cycle, rainbow_cycle_call.
  apply (for_each_invariant (emits P s)); [apply emits_refl|].
  intros s' j _ Hs'. rewrite after_sleep. apply (emits_trans _ _ _ _ Hs').
  apply (emits_frame (fun s i => wheel (rainbow_cycle_pos (led_count s) i j))).
  destruct Hs' as [-> _]. intros s2 i Hi. apply H; [exact Hi | apply rainbow_cycle_pos_byte].
Qed.
End EmitsAnimations.

(** ** Every write is inside the strip *)

Lemma writes_inside_paint n i c : 0 <= i < n -> writes_inside n (PixelStrip.CallSetPixelColor i c).
Proof. intros H. exact H. Qed.

Create HintDb emits.
#[local] Hint Resolve emits_refl emits_show emits_set_pixel emits_set_all_pixels
  emits_set_brightness writes_inside_paint : emits.
#[local] Hint Extern 1 (writes_inside _ PixelStrip.CallShow) => exact I : emits.
#[local] Hint Extern 1 (writes_inside _ (PixelStrip.CallSetBrightness _)) => exact I : emits.

(** Continue a chain of calls from the state reached so far. *)
Ltac emits_after H := apply (emits_trans _ _ _ _ H).

Lemma color_wipe_inside c w s : emits writes_inside s (color_wipe c w s).
Proof.
  unfold color_wipe, color_wipe_call.
  apply (for_each_invariant (emits writes_inside s)); [auto with emits|].
  intros s' i _ Hs'. rewrite after_sleep. emits_after Hs'.
  eapply emits_trans; [apply emits_set_pixel | apply emits_show]; auto with emits.
Qed.

Lemma chase_pass_inside c q s :
  emits writes_inside s
    (foldl (fun s i => set_pixel (i + q) c s) s (range_step 0 (led_count s) 3)).
Proof.
  apply (foldl_invariant (emits writes_inside s)); [auto with emits|].
  intros s' i _ Hs'. emits_after Hs'. auto with emits.
Qed.

Lemma theater_chase_inside c w n s : emits writes_inside s (theater_chase c w n s).
Proof.
  unfold theater_chase, theater_chase_call.
  apply (for_each_invariant (emits writes_inside s)); [auto with emits|].
  intros s1 _ _ H1. emits_after H1.
  apply (for_each_invariant (emits writes_inside s1)); [auto with emits|].
  intros s2 q _ H2. emits_after H2. cbn zeta.
  assert (H3 : emits writes_inside s2
                 (on_strip PixelStrip.show
                    (foldl (fun s i => set_pixel (i + q) c s) s2
                       (range_step 0 (led_count s2) 3)))).
  { eapply emits_trans; [apply chase_pass_inside | apply emits_show; exact I]. }
  apply sleep_then_invariant; [exact H3|]. cbn [after].
  apply (emits_trans _ _ _ _ H3), chase_pass_inside.
Qed.

Lemma breathe_step_inside c s level : emits writes_inside s (breathe_step c s level).
Proof.
  unfold breathe_step.
  eapply emits_trans; [apply emits_set_brightness; auto with emits|].
  eapply emits_trans; [apply emits_set_all_pixels | apply emits_show]; auto with emits.
Qed.

Lemma fade_inside c levels s : emits writes_inside s (foldl (breathe_step c) s levels).
Proof.
  apply (foldl_invariant (emits writes_inside s)); [auto with emits|].
  intros s' b _ H. emits_after H. apply breathe_step_inside.
Qed.

Lemma breathing_effect_inside c n s : emits writes_inside s (breathing_effect c n s).
Proof.
  unfold breathing_effect. cbn zeta.
  eapply emits_trans; [|apply emits_set_brightness; auto with emits].
  apply (foldl_invariant (emits writes_inside s)); [auto with emits|].
  intros s1 _ _ H1. emits_after H1.
  eapply emits_trans; apply fade_inside.
Qed.

Lemma random_colors_inside frames s : emits writes_inside s (random_colors frames s).
Proof.
  unfold random_colors.
  apply (emits_frames writes_inside (fun _ => I) (fun draw _ i => draw i)).
  intros draw _ i Hi. exact Hi.
Qed.

Lemma painted_flushed_inside c s :
  emits writes_inside s (on_strip PixelStrip.show (set_all_pixels c s)).
Proof.
  eapply emits_trans; [apply emits_set_all_pixels | apply emits_show]; auto with emits.
Qed.

Lemma police_round_inside s : emits writes_inside s (police_round s).
Proof.
  unfold police_round. cbn zeta.
  do 3 (eapply emits_trans; [|apply painted_flushed_inside]).
  apply painted_flushed_inside.
Qed.

Lemma police_lights_inside rounds s : emits writes_inside s (police_lights rounds s).
Proof.
  unfold police_lights. apply (iter_invariant (emits writes_inside s)); [auto with emits|].
  intros s' H. emits_after H. apply police_round_inside.
Qed.

Lemma run_inside o s : emits writes_inside s (run o s).
Proof.
  destruct o; cbn [run].
  - auto with emits.
  - auto with emits.
  - unfold clear. eapply emits_trans; [apply emits_set_all_pixels | apply emits_show];
      auto with emits.
  - unfold show. auto with emits.
  - auto with emits.
  - apply color_wipe_inside.
  - apply theater_chase_inside.
  - apply emits_rainbow; [intros; exact I | intros i pos Hi _; exact Hi].
  - apply emits_rainbow_cycle; [intros; exact I | intros i pos Hi _; exact Hi].
  - apply breathing_effect_inside.
  - apply random_colors_inside.
  - apply police_lights_inside.
Qed.

Lemma written_inside n cs :
  Forall (writes_inside n) cs -> Forall (fun i => 0 <= i < n) (PixelStrip.written cs).
Proof.
  induction 1 as [|c cs Hc _ IH]; [constructor|].
  destruct c; cbn; auto.
Qed.

Lemma set_pixel_outside i c s : ~ (0 <= i < led_count s) -> set_pixel i c s = s.
Proof.
  intros H. unfold set_pixel.
  destruct ((0 <=? i) && (i <? led_count s)) eqn:E; [|reflexivity].
  apply andb_prop in E as [E1 E2]. lia.
Qed.

Lemma chase_pass_candidates c q s n :
  foldl (fun s i => set_pixel (i + q) c s) s (range_step 0 n 3)
  = foldl (fun s k => set_pixel k c s) s (chase_candidates n q).
Proof. unfold chase_candidates. now rewrite foldl_fmap. Qed.

(** C9: every write an operation of the facade issues to the strip has
    its index in [0, led_count); theater_chase, whose candidate indices
    i + q reach led_count and led_count + 1 (on a 4-LED strip: 4 and 5),
    writes nothing there, as set_pixel drops those indices. *)
Theorem writes_always_in_range (o : op) (self : t) :
  PixelStrip.calls (strip (run o self))
    = PixelStrip.calls (strip self) ++ issued self (run o self) /\
  Forall (fun i => 0 <= i < led_count self)
         (PixelStrip.written (issued self (run o self))) /\
  (forall c w n,
     Forall (fun i => 0 <= i < led_count self)
            (PixelStrip.written (issued self (theater_chase c w n self)))) /\
  (4 ∈ chase_candidates 4 1 /\ 5 ∈ chase_candidates 4 2) /\
  (forall i c s, ~ (0 <= i < led_count s) -> issued s (set_pixel i c s) = []).
Proof.
  pose proof (emits_issued _ _ _ (run_inside o self)) as [E F].
  split; [exact E|]. split; [now apply written_inside|]. split; [|split].
  - intros c w n.
    pose proof (emits_issued _ _ _ (theater_chase_inside c w n self)) as [_ F'].
    now apply written_inside.
  - split; apply list_elem_of_In; vm_compute; auto.
  - intros i c s H. rewrite set_pixel_outside by exact H.
    unfold issued. apply drop_all.
Qed.

Lemma writes_always_in_range_on_main :
  Forall (fun i => 0 <= i < 30)
         (PixelStrip.written
            (issued main_controller (run (TheaterChase (127, 127, 127) 50 3) main_controller))) /\
  issued main_controller (set_pixel 30 (127, 127, 127) main_controller) = [].
Proof.
  pose proof (writes_always_in_range (TheaterChase (127, 127, 127) 50 3) main_controller)
    as (_ & H & _ & _ & G).
  split; [exact H|]. apply G. cbn. lia.
Defined.

(** ** Colours written by the rainbows *)

(** C10: for every position in [0,255] the three channels of wheel(pos)
    are in [0,255]; the positions rainbow and rainbow_cycle hand to wheel
    are masked with 255 and so lie in [0,255]; hence every colour these
    two routines write is a triple of bytes. *)
Theorem wheel_channels_are_bytes (pos : Z) :
  0 <= pos <= 255 ->
  byte_color (wheel pos) /\
  (forall i j, 0 <= rainbow_pos i j <= 255) /\
  (forall n i j, 0 <= rainbow_cycle_pos n i j <= 255) /\
  (forall w n s, Forall (writes_bytes (led_count s)) (issued s (rainbow w n s))) /\
  (forall w n s, Forall (writes_bytes (led_count s)) (issued s (rainbow_cycle w n s))).
Proof.
  intros H. split; [now apply wheel_byte_color|].
  split; [apply rainbow_pos_byte|]. split; [apply rainbow_cycle_pos_byte|].
  split; intros w n s.
  - apply (emits_issued writes_bytes), emits_rainbow; [intros; exact I|].
    intros i p _ Hp. now apply wheel_byte_color.
  - apply (emits_issued writes_bytes), emits_rainbow_cycle; [intros; exact I|].
    intros i p _ Hp. now apply wheel_byte_color.
Qed.

Lemma wheel_channels_are_bytes_at_200 :
  byte_color (wheel 200) /\
  Forall (writes_bytes 30) (issued main_controller (rainbow 20 1 main_controller)).
Proof.
  assert (H : 0 <= 200 <= 255) by lia.
  pose proof (wheel_channels_are_bytes 200 H) as (H1 & _ & _ & H2 & _).
  split; [exact H1 | apply (H2 20 1 main_controller)].
Defined.

(** ** What the operations leave alone *)

Section Kept.
Context {X : Type}.
(** An observation of the controller that neither a flush nor a pixel
    write changes. *)
Variable g : t -> X.
Hypothesis g_show : forall s, g (on_strip PixelStrip.show s) = g s.
Hypothesis g_write : forall i c s, g (on_strip (PixelStrip.setPixelColor i c) s) = g s.

Lemma kept_set_pixel i c s : g (set_pixel i c s) = g s.
Proof.
  unfold set_pixel. destruct ((0 <=? i) && (i <? led_count s)); [|reflexivity].
  destruct c as [[r gr] b]. apply g_write.
Qed.

Lemma kept_set_all_pixels c s : g (set_all_pixels c s) = g s.
Proof.
  unfold set_all_pixels. destruct c as [[r gr] b].
  apply (foldl_invariant (fun s' => g s' = g s)); [reflexivity|].
  intros s' i _ <-. apply g_write.
Qed.

Lemma kept_clear s : g (clear s) = g s.
Proof. unfold clear. now rewrite g_show, kept_set_all_pixels. Qed.

Lemma kept_frames {J : Type} (col : J -> t -> Z -> color) (js : list J) s :
  g (foldl (fun s j =>
       on_strip PixelStrip.show
         (foldl (fun s i => set_pixel i (col j s i) s) s (range (led_count s))))
     s js) = g s.
Proof.
  apply (foldl_invariant (fun s' => g s' = g s)); [reflexivity|].
  intros s1 j _ <-. rewrite g_show.
  apply (foldl_invariant (fun s' => g s' = g s1)); [reflexivity|].
  intros s2 i _ <-. apply kept_set_pixel.
Qed.

Lemma kept_color_wipe c w s : g (color_wipe c w s) = g s.
Proof.
  unfold color_wipe, color_wipe_call.
  apply (for_each_invariant (fun s' => g s' = g s)); [reflexivity|].
  intros s' i _ <-. now rewrite after_sleep, g_show, kept_set_pixel.
Qed.

Lemma kept_chase_pass c q n s :
  g (foldl (fun s i => set_pixel (i + q) c s) s (range_step 0 n 3)) = g s.
Proof.
  apply (foldl_invariant (fun s' => g s' = g s)); [reflexivity|].
  intros s' i _ <-. apply kept_set_pixel.
Qed.

Lemma kept_theater_chase c w n s : g (theater_chase c w n s) = g s.
Proof.
  unfold theater_chase, theater_chase_call.
  apply (for_each_invariant (fun s' => g s' = g s)); [reflexivity|].
  intros s1 _ _ <-.
  apply (for_each_invariant (fun s' => g s' = g s1)); [reflexivity|].
  intros s2 q _ <-. cbn zeta.
  apply (sleep_then_invariant (fun s' => g s' = g s2)); cbn [after].
  - now rewrite g_show, kept_chase_pass.
  - now rewrite kept_chase_pass, g_show, kept_chase_pass.
Qed.

Lemma kept_frame (col : t -> Z -> color) s :
  g (on_strip PixelStrip.show
       (foldl (fun s i => set_pixel i (col s i) s) s (range (led_count s)))) = g s.
Proof. exact (kept_frames (fun _ : unit => col) [tt] s). Qed.

Lemma kept_rainbow w n s : g (rainbow w n s) = g s.
Proof.
  unfold rainbow, rainbow_call.
  apply (for_each_invariant (fun s' => g s' = g s)); [reflexivity|].
  intros s' j _ <-. rewrite after_sleep.
  apply (kept_frame (fun _ i => wheel (rainbow_pos i j))).
Qed.

Lemma kept_rainbow_cycle w n s : g (rainbow_cycle w n s) = g s.
Proof.
  unfold rainbow_cycle, rainbow_cycle_call.
  apply (for_each_invariant (fun s' => g s' = g s)); [reflexivity|].
  intros s' j _ <-. rewrite after_sleep.
  apply (kept_frame (fun s i => wheel (rainbow_cycle_pos (led_count s) i j))).
Qed.

Lemma kept_police_lights rounds s : g (police_lights rounds s) = g s.
Proof.
  unfold police_lights.
  apply (iter_invariant (fun s' => g s' = g s)); [reflexivity|].
  intros s' <-. unfold police_round. cbn zeta.
  now repeat (rewrite g_show, kept_set_all_pixels).
Qed.

(** Every animation other than the breathing effect returns with the
    observation it was called with. *)
Lemma kept_animation o s :
  is_animation o = true -> (forall c n, o <> BreathingEffect c n) ->
  g (run o s) = g s.
Proof.
  intros Ha Hb. destruct o; try discriminate Ha; cbn [run].
  - apply kept_color_wipe.
  - apply kept_theater_chase.
  - apply kept_rainbow.
  - apply kept_rainbow_cycle.
  - now destruct (Hb c cycles).
  - apply (kept_frames (fun draw _ i => draw i)).
  - apply kept_police_lights.
Qed.

(** If setting the brightness does not change it either, no operation
    does. *)
Hypothesis g_level : forall level s, g (set_brightness level s) = g s.

Lemma kept_breathing_effect c n s : g (breathing_effect c n s) = g s.
Proof.
  unfold breathing_effect. cbn zeta. rewrite g_level.
  assert (F : forall levels s0, g (foldl (breathe_step c) s0 levels) = g s0).
  { intros levels s0.
    apply (foldl_invariant (fun s' => g s' = g s0)); [reflexivity|].
    intros s' b _ <-. unfold breathe_step.
    now rewrite g_show, kept_set_all_pixels, g_level. }
  apply (foldl_invariant (fun s' => g s' = g s)); [reflexivity|].
  intros s1 _ _ <-. now rewrite !F.
Qed.

Lemma kept_run o s : g (run o s) = g s.
Proof.
  destruct o;
    try (match goal with
         | |- g (run ?a s) = _ => apply (kept_animation a s); [reflexivity | discriminate]
         end);
    cbn [run].
  - apply kept_set_pixel.
  - apply kept_set_all_pixels.
  - apply kept_clear.
  - apply g_show.
  - apply g_level.
  - apply kept_breathing_effect.
Qed.
End Kept.

(** *** The scalars *)

Lemma scalars_show s : scalars (on_strip PixelStrip.show s) = scalars s.
Proof. reflexivity. Qed.

Lemma scalars_write i c s :
  scalars (on_strip (PixelStrip.setPixelColor i c) s) = scalars s.
Proof. reflexivity. Qed.

Lemma brightness_breathing_effect c n s : brightness (breathing_effect c n s) = 255.
Proof. reflexivity. Qed.

Lemma animation_keeps_scalars o s :
  is_animation o = true -> (forall c n, o <> BreathingEffect c n) ->
  scalars (run o s) = scalars s.
Proof. apply (kept_animation scalars scalars_show scalars_write). Qed.

(** *** The shape of the buffer *)

Lemma shape_show s : shape (on_strip PixelStrip.show s) = shape s.
Proof. reflexivity. Qed.

Lemma shape_write i c s : shape (on_strip (PixelStrip.setPixelColor i c) s) = shape s.
Proof.
  unfold shape. cbn. destruct (0 <=? i); [|reflexivity]. now rewrite length_insert.
Qed.

Lemma shape_level level s : shape (set_brightness level s) = shape s.
Proof. reflexivity. Qed.

(** Every operation keeps the buffer as long as the LED count says. *)
Lemma run_sized o s : sized s -> sized (run o s).
Proof.
  pose proof (kept_run shape shape_show shape_write shape_level o s) as E.
  unfold shape in E. injection E as E1 E2. unfold sized. now rewrite E1, E2.
Qed.

(** C8, on the program's own path: [main] builds the controller with
    brightness 128 and the demo runs breathing_effect((255,100,100), 2),
    which returns with brightness 255 in the controller and in the strip,
    not with the 128 it was called with. *)
Theorem breathing_effect_leaves_full_brightness :
  brightness main_controller = 128 /\
  brightness (breathing_effect (255, 100, 100) 2 main_controller) = 255 /\
  PixelStrip.brightness (strip (breathing_effect (255, 100, 100) 2 main_controller)) = 255 /\
  scalars (breathing_effect (255, 100, 100) 2 main_controller) <> scalars main_controller.
Proof.
  split; [reflexivity|]. split; [apply brightness_breathing_effect|].
  split; [reflexivity|].
  unfold scalars. rewrite brightness_breathing_effect.
  intros H. apply (f_equal (fun x => snd (fst x))) in H. discriminate H.
Qed.

(** ** The brightness scalar stays a byte *)

Lemma scalars_brightness s s' : scalars s' = scalars s -> brightness s' = brightness s.
Proof. unfold scalars. intros H. now injection H. Qed.

Lemma run_brightness_ok o s : brightness_ok s -> brightness_ok (run o s).
Proof.
  unfold brightness_ok. intros H.
  assert (K : forall s', scalars s' = scalars s -> 0 <= brightness s' <= 255).
  { intros s' E. now rewrite (scalars_brightness _ _ E). }
  destruct o;
    try (match goal with
         | |- context [run ?a s] =>
             apply K, (animation_keeps_scalars a s); [reflexivity | discriminate]
         end);
    cbn [run].
  - apply K, (kept_set_pixel scalars scalars_write).
  - apply K, (kept_set_all_pixels scalars scalars_write).
  - apply K, (kept_clear scalars scalars_show scalars_write).
  - apply K, scalars_show.
  - cbn. lia.
  - rewrite brightness_breathing_effect. lia.
Qed.

(** C5, as stated, fails: the constructor stores its brightness argument
    as it is, so WS2812Controller(brightness=300) holds 300. *)
Lemma init_stores_brightness_unclamped :
  ~ brightness_ok (init 30 300 (fun _ => (0, 0, 0))).
Proof. unfold brightness_ok. cbn. lia. Qed.

(** C5, amended: when the constructor's brightness argument is in [0,255]
    the brightness scalar is in [0,255] right after construction; every
    operation of the facade keeps a brightness that is in [0,255] in
    [0,255]; so it is in [0,255] after any sequence of operations on the
    constructed controller. *)
Theorem brightness_stays_byte (n b : Z) (mem : nat -> color) (ops : list op) :
  0 <= b <= 255 ->
  brightness_ok (init n b mem) /\
  (forall o self, brightness_ok self -> brightness_ok (run o self)) /\
  brightness_ok (foldl (fun s o => run o s) (init n b mem) ops).
Proof.
  intros H. assert (H0 : brightness_ok (init n b mem)) by exact H.
  split; [exact H0|]. split; [intros o self; apply run_brightness_ok|].
  apply (foldl_invariant brightness_ok); [exact H0|].
  intros s o _. apply run_brightness_ok.
Qed.

Lemma brightness_stays_byte_on_main :
  brightness_ok main_controller /\
  brightness_ok (foldl (fun s o => run o s) main_controller
                   [SetBrightness 300; BreathingEffect (255, 100, 100) 2; Clear]).
Proof.
  assert (H : 0 <= 128 <= 255) by lia.
  pose proof (brightness_stays_byte 30 128 (fun _ => (0, 0, 0))
                [SetBrightness 300; BreathingEffect (255, 100, 100) 2; Clear] H)
    as (H1 & _ & H2).
  split; [exact H1 | exact H2].
Defined.

(** ** The pixel buffer *)

Lemma flushes_app cs1 cs2 :
  PixelStrip.flushes (cs1 ++ cs2) = (PixelStrip.flushes cs1 + PixelStrip.flushes cs2)%nat.
Proof.
  induction cs1 as [|c cs1 IH]; [reflexivity|].
  destruct c; cbn; rewrite IH; reflexivity.
Qed.

(** The calls of one turn of [color_wipe]: a write, then a flush. *)
Lemma flushes_write_then_show (c : color) (l : list Z) :
  PixelStrip.flushes (l ≫= fun i => [PixelStrip.CallSetPixelColor i c; PixelStrip.CallShow])
  = length l.
Proof. induction l as [|i l IH]; [reflexivity|]. cbn. now rewrite IH. Qed.

Lemma pixels_set_pixel_inside i c s :
  0 <= i < led_count s ->
  led_count (set_pixel i c s) = led_count s /\
  PixelStrip.pixels (strip (set_pixel i c s))
    = <[Z.to_nat i := c]> (PixelStrip.pixels (strip s)) /\
  PixelStrip.calls (strip (set_pixel i c s))
    = PixelStrip.calls (strip s) ++ [PixelStrip.CallSetPixelColor i c].
Proof.
  intros H. unfold set_pixel.
  assert (E : (0 <=? i) && (i <? led_count s) = true).
  { apply andb_true_intro. split; [apply Z.leb_le | apply Z.ltb_lt]; lia. }
  rewrite E. destruct c as [[r g] b]. cbn.
  assert (E0 : (0 <=? i) = true) by (apply Z.leb_le; lia).
  now rewrite E0.
Qed.

Section Painting.
Variable f : t -> Z -> t.
Variable c : color.
Variable n : Z.
Hypothesis f_paints : forall s i,
  led_count s = n -> 0 <= i < n ->
  led_count (f s i) = n /\
  PixelStrip.pixels (strip (f s i)) = <[Z.to_nat i := c]> (PixelStrip.pixels (strip s)).

(** After [k] turns of a loop that paints slot [i] at turn [i], the first
    [k] slots hold the colour and the others are as before. *)
Lemma paint_prefix (k : nat) s :
  led_count s = n -> (k <= Z.to_nat n)%nat ->
  length (PixelStrip.pixels (strip s)) = Z.to_nat n ->
  led_count (foldl f s (seqZ 0 (Z.of_nat k))) = n /\
  PixelStrip.pixels (strip (foldl f s (seqZ 0 (Z.of_nat k))))
    = replicate k c ++ drop k (PixelStrip.pixels (strip s)).
Proof.
  intros Hn Hk Hlen. induction k as [|k IH].
  - cbn. rewrite drop_0. auto.
  - destruct IH as [IH1 IH2]; [lia|].
    rewrite seqZ_S, foldl_snoc.
    destruct (f_paints (foldl f s (seqZ 0 (Z.of_nat k))) (0 + Z.of_nat k) IH1)
      as [F1 F2]; [lia|].
    split; [exact F1|]. rewrite F2, IH2.
    replace (Z.to_nat (0 + Z.of_nat k)) with k by lia.
    destruct (lookup_lt_is_Some_2 (PixelStrip.pixels (strip s)) k) as [x Hx]; [lia|].
    rewrite (drop_S _ x k Hx).
    rewrite insert_app_r_alt by (rewrite length_replicate; lia).
    rewrite length_replicate, Nat.sub_diag. cbn.
    rewrite cons_middle, app_assoc, <- replicate_S_end. reflexivity.
Qed.

Lemma paint_all s :
  led_count s = n -> length (PixelStrip.pixels (strip s)) = Z.to_nat n ->
  PixelStrip.pixels (strip (foldl f s (range n))) = replicate (Z.to_nat n) c.
Proof.
  intros Hn Hlen. unfold range.
  destruct (Z.le_gt_cases 0 n) as [Hpos|Hneg].
  - destruct (paint_prefix (Z.to_nat n) s Hn (Nat.le_refl _) Hlen) as [_ E].
    rewrite Z2Nat.id in E by exact Hpos. rewrite E.
    rewrite drop_ge by lia. apply app_nil_r.
  - rewrite seqZ_nil by lia. cbn.
    replace (Z.to_nat n) with 0%nat in * by lia.
    now apply nil_length_inv.
Qed.
End Painting.

Lemma pixels_set_all_pixels c s :
  sized s ->
  PixelStrip.pixels (strip (set_all_pixels c s)) = replicate (Z.to_nat (led_count s)) c.
Proof.
  intros H. unfold set_all_pixels. destruct c as [[r g] b].
  apply paint_all; [|reflexivity|exact H].
  intros s' i Hs Hi. split; [exact Hs|]. cbn.
  assert (E0 : (0 <=? i) = true) by (apply Z.leb_le; lia).
  now rewrite E0.
Qed.

Lemma pixels_color_wipe c w s :
  wait_ok w -> sized s ->
  PixelStrip.pixels (strip (color_wipe c w s)) = replicate (Z.to_nat (led_count s)) c.
Proof.
  intros Hw H. rewrite (color_wipe_fold c w s Hw).
  apply paint_all; [|reflexivity|exact H].
  intros s' i Hs Hi.
  destruct (pixels_set_pixel_inside i c s') as (L & E & _); [lia|].
  split; [cbn; congruence | exact E].
Qed.

Lemma calls_color_wipe_prefix c (k : nat) s :
  (k <= Z.to_nat (led_count s))%nat ->
  let s' := foldl (fun s i => on_strip PixelStrip.show (set_pixel i c s))
                  s (seqZ 0 (Z.of_nat k)) in
  led_count s' = led_count s /\
  PixelStrip.calls (strip s')
    = PixelStrip.calls (strip s)
      ++ (seqZ 0 (Z.of_nat k) ≫=
            fun i => [PixelStrip.CallSetPixelColor i c; PixelStrip.CallShow]).
Proof.
  intros Hk. cbn zeta. induction k as [|k IH].
  - cbn. now rewrite app_nil_r.
  - destruct IH as [IH1 IH2]; [lia|].
    rewrite seqZ_S, foldl_snoc, bind_app.
    set (sk := foldl _ s (seqZ 0 (Z.of_nat k))) in *.
    destruct (pixels_set_pixel_inside (0 + Z.of_nat k) c sk) as (L & _ & C); [lia|].
    split; [cbn; congruence|]. cbn. rewrite C, IH2.
    now rewrite <- !app_assoc.
Qed.

Lemma issued_color_wipe c w s :
  wait_ok w ->
  issued s (color_wipe c w s)
  = range (led_count s) ≫=
      fun i => [PixelStrip.CallSetPixelColor i c; PixelStrip.CallShow].
Proof.
  intros Hw. rewrite (color_wipe_fold c w s Hw). unfold issued, range.
  destruct (Z.le_gt_cases 0 (led_count s)) as [Hpos|Hneg].
  - destruct (calls_color_wipe_prefix c (Z.to_nat (led_count s)) s (Nat.le_refl _))
      as [_ E].
    rewrite Z2Nat.id in E by exact Hpos. rewrite E. apply drop_app_length.
  - rewrite seqZ_nil by lia. cbn. apply drop_all.
Qed.

Lemma sized_init n b mem : sized (init n b mem).
Proof. unfold sized. cbn. now rewrite length_fmap, length_seq. Qed.

(** C2: set_pixel with an index outside [0, led_count) leaves the whole
    controller, and so the pixel buffer, unchanged and raises nothing; with
    an index inside it stores the given RGB triple at that index and
    changes no other slot. *)
Theorem set_pixel_guarded_write (i : Z) (c : color) (self : t) :
  (~ (0 <= i < led_count self) -> set_pixel i c self = self) /\
  (0 <= i < led_count self -> sized self ->
   PixelStrip.pixels (strip (set_pixel i c self))
     = <[Z.to_nat i := c]> (PixelStrip.pixels (strip self)) /\
   PixelStrip.pixels (strip (set_pixel i c self)) !! Z.to_nat i = Some c /\
   (forall j : nat, j <> Z.to_nat i ->
      PixelStrip.pixels (strip (set_pixel i c self)) !! j
      = PixelStrip.pixels (strip self) !! j)).
Proof.
  split; [apply set_pixel_outside|]. intros Hi Hs.
  destruct (pixels_set_pixel_inside i c self Hi) as (_ & E & _).
  rewrite E. split; [reflexivity|]. split.
  - apply list_lookup_insert_eq. unfold sized in Hs. lia.
  - intros j Hj. apply list_lookup_insert_ne. congruence.
Qed.

Lemma set_pixel_guarded_write_on_ten :
  set_pixel 10 red ten_pixel_strip = ten_pixel_strip /\
  set_pixel (-1) red ten_pixel_strip = ten_pixel_strip /\
  PixelStrip.pixels (strip (set_pixel 9 red ten_pixel_strip)) !! 9%nat = Some red.
Proof.
  pose proof (set_pixel_guarded_write 10 red ten_pixel_strip) as [H1 _].
  pose proof (set_pixel_guarded_write (-1) red ten_pixel_strip) as [H2 _].
  pose proof (set_pixel_guarded_write 9 red ten_pixel_strip) as [_ H3].
  split; [apply H1; cbn; lia|]. split; [apply H2; cbn; lia|].
  apply H3; [cbn; lia | reflexivity].
Defined.

(** C6: clear() is set_all_pixels((0,0,0)) followed by show(): from every
    state both give the same controller, buffer and calls on the strip
    alike; and after clear() every slot of the buffer is black. *)
Theorem clear_is_set_all_then_show (self : t) :
  clear self = show (set_all_pixels black self) /\
  (sized self ->
   PixelStrip.pixels (strip (clear self)) = replicate (Z.to_nat (led_count self)) black /\
   (forall (i : nat) c, PixelStrip.pixels (strip (clear self)) !! i = Some c -> c = black)).
Proof.
  split; [reflexivity|]. intros Hs.
  assert (E : PixelStrip.pixels (strip (clear self))
              = replicate (Z.to_nat (led_count self)) black).
  { unfold clear. cbn. now apply (pixels_set_all_pixels (0, 0, 0)). }
  split; [exact E|]. intros i c. rewrite E, lookup_replicate. now intros [-> _].
Qed.

Lemma clear_is_set_all_then_show_on_ten :
  clear ten_pixel_strip = show (set_all_pixels black ten_pixel_strip) /\
  PixelStrip.pixels (strip (clear ten_pixel_strip)) = replicate 10 black.
Proof.
  pose proof (clear_is_set_all_then_show ten_pixel_strip) as [H1 H2].
  split; [exact H1|]. apply H2. reflexivity.
Defined.

(** C7: color_wipe over a strip of N pixels, with a wait that time.sleep
    makes (0 to sleep_max_ms milliseconds), returns; it writes the colour
    into the slots 0, 1, ..., N-1 in this order and flushes after each
    write, N flushes in all, leaving every slot equal to the colour; on a
    strip of 10 pixels color_wipe(red, 0) ends with 10 red slots after
    exactly 10 flushes. *)
Theorem color_wipe_fills_and_flushes (c : color) (wait_ms : Z) (self : t) :
  sized self -> 0 <= wait_ms <= sleep_max_ms ->
  color_wipe_call c wait_ms self = Returned (color_wipe c wait_ms self) /\
  PixelStrip.pixels (strip (color_wipe c wait_ms self))
    = replicate (Z.to_nat (led_count self)) c /\
  PixelStrip.calls (strip (color_wipe c wait_ms self))
    = PixelStrip.calls (strip self) ++ issued self (color_wipe c wait_ms self) /\
  issued self (color_wipe c wait_ms self)
    = (range (led_count self) ≫=
         fun i => [PixelStrip.CallSetPixelColor i c; PixelStrip.CallShow]) /\
  PixelStrip.flushes (issued self (color_wipe c wait_ms self)) = Z.to_nat (led_count self) /\
  (led_count self = 10 ->
   color_wipe_call red 0 self = Returned (color_wipe red 0 self) /\
   PixelStrip.pixels (strip (color_wipe red 0 self)) = replicate 10 red /\
   PixelStrip.flushes (issued self (color_wipe red 0 self)) = 10%nat).
Proof.
  intros Hs Hw.
  assert (H0 : wait_ok 0) by (unfold wait_ok, sleep_max_ms; lia).
  assert (R : forall c' w', wait_ok w' ->
            color_wipe_call c' w' self = Returned (color_wipe c' w' self)).
  { intros c' w' Hw'. rewrite (color_wipe_fold c' w' self Hw').
    now apply color_wipe_call_returns. }
  assert (F : forall c' w', wait_ok w' ->
            PixelStrip.flushes (issued self (color_wipe c' w' self))
            = Z.to_nat (led_count self)).
  { intros c' w' Hw'. rewrite issued_color_wipe, flushes_write_then_show by exact Hw'.
    unfold range. apply length_seqZ. }
  split; [now apply R|].
  split; [now apply pixels_color_wipe|].
  split; [apply (emits_issued _ _ _ (color_wipe_inside c wait_ms self))|].
  split; [now apply issued_color_wipe|]. split; [now apply F|].
  intros H10. split; [now apply R|].
  rewrite F, pixels_color_wipe by assumption. now rewrite H10.
Qed.

Lemma color_wipe_fills_and_flushes_on_ten :
  color_wipe_call red 0 ten_pixel_strip = Returned (color_wipe red 0 ten_pixel_strip) /\
  PixelStrip.pixels (strip (color_wipe red 0 ten_pixel_strip)) = replicate 10 red /\
  PixelStrip.flushes (issued ten_pixel_strip (color_wipe red 0 ten_pixel_strip)) = 10%nat.
Proof.
  assert (Hs : sized ten_pixel_strip) by reflexivity.
  assert (Hw : 0 <= 0 <= sleep_max_ms) by (unfold sleep_max_ms; lia).
  pose proof (color_wipe_fills_and_flushes red 0 ten_pixel_strip Hs Hw)
    as (_ & _ & _ & _ & _ & H).
  apply H. reflexivity.
Defined.

(** * Further properties of the controller *)

Import Observe.

(** ** Reachable controllers *)

(** X1: the constructor builds a buffer of [led_count] slots and no sequence
    of operations changes the LED count or the number of slots. *)
Theorem constructed_stays_sized (n b : Z) (mem : nat -> color) (ops : list op) :
  let s := foldl (fun s o => run o s) (init n b mem) ops in
  led_count s = n /\ length (buffer s) = Z.to_nat n /\ sized s.
Proof.
  cbn zeta.
  assert (E : shape (foldl (fun s o => run o s) (init n b mem) ops)
              = shape (init n b mem)).
  { apply (foldl_invariant (fun s => shape s = shape (init n b mem))); [reflexivity|].
    intros s o _ <-. apply (kept_run shape shape_show shape_write shape_level). }
  unfold shape in E. injection E as E1 E2. unfold sized, buffer.
  rewrite E1, E2. cbn. rewrite length_fmap, length_seq. auto.
Qed.

(** ** Painting loops *)

Lemma shape_set_pixel i c s : shape (set_pixel i c s) = shape s.
Proof. apply (kept_set_pixel shape shape_write). Qed.

Lemma shape_led_count s s' : shape s' = shape s -> led_count s' = led_count s.
Proof. unfold shape. intros E. now injection E. Qed.

Lemma sized_shape s s' : shape s' = shape s -> sized s -> sized s'.
Proof.
  unfold shape, sized. intros E H. injection E as E1 E2. now rewrite E1, E2.
Qed.

Lemma buffer_set_pixel i c s (j : nat) :
  sized s ->
  buffer (set_pixel i c s) !! j
  = if decide (0 <= i < led_count s /\ j = Z.to_nat i) then Some c else buffer s !! j.
Proof.
  intros Hs. destruct (decide (0 <= i < led_count s)) as [Hi|Hi].
  - destruct (pixels_set_pixel_inside i c s Hi) as (_ & E & _).
    unfold buffer. rewrite E. destruct (decide (j = Z.to_nat i)) as [->|Hj].
    + rewrite decide_True by auto. apply list_lookup_insert_eq.
      unfold sized in Hs. lia.
    + rewrite decide_False by tauto. apply list_lookup_insert_ne. congruence.
  - rewrite set_pixel_outside by exact Hi. now rewrite decide_False by tauto.
Qed.

Section PaintList.
Variable col : t -> Z -> color.
Variable col0 : Z -> color.
Variable n : Z.
Hypothesis col_fixed : forall s i, led_count s = n -> col s i = col0 i.

(** A loop that hands the indices of [l] to [set_pixel]: the slots named
    in [l] hold their colour, the others are as before. *)
Lemma buffer_paint_list (l : list Z) : forall s,
  led_count s = n -> sized s ->
  let s' := foldl (fun s i => set_pixel i (col s i) s) s l in
  shape s' = shape s /\
  forall j : nat, (j < Z.to_nat n)%nat ->
    buffer s' !! j
    = if decide (Z.of_nat j ∈ l) then Some (col0 (Z.of_nat j)) else buffer s !! j.
Proof.
  induction l as [|i l IH]; intros s Hn Hs; cbn zeta.
  - split; [reflexivity|]. intros j _. rewrite decide_False; [reflexivity|].
    apply not_elem_of_nil.
  - cbn [foldl]. rewrite (col_fixed s i Hn).
    pose proof (shape_set_pixel i (col0 i) s) as Sh.
    assert (Hn1 : led_count (set_pixel i (col0 i) s) = n).
    { unfold shape in Sh. injection Sh as E _. congruence. }
    destruct (IH (set_pixel i (col0 i) s) Hn1 (sized_shape _ _ Sh Hs)) as [IH1 IH2].
    split; [congruence|]. intros j Hj. rewrite (IH2 j Hj).
    rewrite buffer_set_pixel by exact Hs.
    destruct (decide (Z.of_nat j ∈ l)) as [Hin|Hin].
    + rewrite decide_True; [reflexivity | now right].
    + destruct (decide (0 <= i < led_count s /\ j = Z.to_nat i)) as [[Hi ->]|Hne].
      * rewrite Z2Nat.id by lia. rewrite decide_True; [reflexivity | left].
      * rewrite decide_False; [reflexivity|].
        intros Hc. apply elem_of_cons in Hc as [Hc|Hc]; [|contradiction].
        apply Hne. split; [lia|]. subst i. now rewrite Nat2Z.id.
Qed.

(** Painting every index of the strip gives the frame [col0]. *)
Lemma buffer_paint_all s :
  led_count s = n -> sized s ->
  let s' := foldl (fun s i => set_pixel i (col s i) s) s (range n) in
  shape s' = shape s /\ buffer s' = col0 <$> range n.
Proof.
  intros Hn Hs. cbn zeta.
  destruct (buffer_paint_list (range n) s Hn Hs) as [Sh L].
  split; [exact Sh|]. apply list_eq. intros j.
  rewrite list_lookup_fmap.
  destruct (decide (j < Z.to_nat n)%nat) as [Hj|Hj].
  - rewrite (L j Hj). rewrite decide_True by (apply range_spec; lia).
    unfold range. rewrite lookup_seqZ_lt by lia. cbn. now rewrite Z.add_0_l.
  - unfold range at 2. rewrite lookup_seqZ_ge by lia. cbn. apply lookup_ge_None.
    pose proof (sized_shape _ _ Sh Hs) as Hs'. unfold sized, shape in *.
    injection Sh as E _. unfold buffer. rewrite Hs', E, Hn. lia.
Qed.
End PaintList.

(** ** Counting flushes *)

Lemma shown_show s : shown (on_strip PixelStrip.show s) = S (shown s).
Proof. unfold shown. cbn. rewrite flushes_app. cbn. lia. Qed.

Lemma shown_write i c s : shown (on_strip (PixelStrip.setPixelColor i c) s) = shown s.
Proof. unfold shown. cbn. rewrite flushes_app. cbn. lia. Qed.

Lemma shown_level level s : shown (set_brightness level s) = shown s.
Proof. unfold shown. cbn. rewrite flushes_app. cbn. lia. Qed.

Lemma shown_set_pixel i c s : shown (set_pixel i c s) = shown s.
Proof. apply (kept_set_pixel shown shown_write). Qed.

Lemma shown_set_all_pixels c s : shown (set_all_pixels c s) = shown s.
Proof. apply (kept_set_all_pixels shown shown_write). Qed.

(** A loop whose every turn flushes [m] times flushes [m] times its
    number of turns. *)
Lemma shown_loop {B : Type} (f : t -> B -> t) (m : nat) (l : list B) :
  (forall s x, shown (f s x) = (shown s + m)%nat) ->
  forall s, shown (foldl f s l) = (shown s + m * length l)%nat.
Proof.
  intros Hf. induction l as [|x l IH]; intros s; cbn [foldl length]; [lia|].
  rewrite IH, Hf. lia.
Qed.

Lemma last_range n : 0 < n -> last (range n) = Some (n - 1).
Proof.
  intros H. unfold range. replace n with (Z.of_nat (S (Z.to_nat (n - 1)))) at 1 by lia.
  rewrite seqZ_S, last_snoc. f_equal. lia.
Qed.

Lemma length_range n : length (range n) = Z.to_nat n.
Proof. apply length_seqZ. Qed.

(** ** Frames *)

Section Frames.
Context {J : Type}.
Variable col : J -> t -> Z -> color.
Variable col0 : J -> Z -> color.
Variable n : Z.
Hypothesis col_fixed : forall j s i, led_count s = n -> col j s i = col0 j i.

Lemma frame_result j s :
  led_count s = n -> sized s ->
  shape (frame (col j) s) = shape s /\
  shown (frame (col j) s) = S (shown s) /\
  buffer (frame (col j) s) = col0 j <$> range n.
Proof.
  intros Hn Hs. unfold frame. rewrite Hn.
  destruct (buffer_paint_all (col j) (col0 j) n (col_fixed j) s Hn Hs) as [Sh B].
  split; [now rewrite shape_show|]. split; [|exact B].
  rewrite shown_show. f_equal.
  apply (foldl_invariant (fun s' => shown s' = shown s)); [reflexivity|].
  intros s' i _ <-. apply shown_set_pixel.
Qed.

(** A loop of frames flushes once per frame and leaves the last frame
    in the buffer. *)
Lemma frames_result (js : list J) s :
  led_count s = n -> sized s ->
  let s' := foldl (fun s j => frame (col j) s) s js in
  shape s' = shape s /\
  shown s' = (shown s + length js)%nat /\
  (js = [] -> s' = s) /\
  (forall j, last js = Some j -> buffer s' = col0 j <$> range n).
Proof.
  intros Hn Hs. cbn zeta. induction js as [|j js IH] using rev_ind.
  - cbn. repeat split; [lia | discriminate].
  - destruct IH as (Sh & Sn & _ & _). rewrite foldl_snoc.
    set (s1 := foldl _ s js) in *.
    assert (Hn1 : led_count s1 = n).
    { unfold shape in Sh. injection Sh as E _. congruence. }
    destruct (frame_result j s1 Hn1 (sized_shape _ _ Sh Hs)) as (Sh' & Sn' & B).
    split; [congruence|]. split; [rewrite Sn', Sn, length_app; cbn; lia|].
    split; [intros E; now apply app_nil in E as [_ E]|].
    intros j'. rewrite last_snoc. intros [= <-]. exact B.
Qed.
End Frames.

(** ** The rainbows *)

Lemma land_255_period (x k : Z) : Z.land (x + 256 * k) 255 = Z.land x 255.
Proof.
  assert (E : forall y, Z.land y 255 = y mod 256).
  { intros y. change 255 with (Z.ones 8). rewrite Z.land_ones by lia. reflexivity. }
  rewrite !E. rewrite (Z.mul_comm 256 k). apply Z_mod_plus_full.
Qed.

(** X2: the colours of [rainbow] repeat every 256 frames and every 256
    pixels; those of [rainbow_cycle] repeat every 256 frames. *)
Theorem rainbow_period (n i j k : Z) :
  rainbow_pos i (j + 256 * k) = rainbow_pos i j /\
  rainbow_pos (i + 256 * k) j = rainbow_pos i j /\
  rainbow_cycle_pos n i (j + 256 * k) = rainbow_cycle_pos n i j /\
  rainbow_pos i j = (i + j) mod 256.
Proof.
  unfold rainbow_pos, rainbow_cycle_pos. repeat split.
  - rewrite Z.add_assoc. apply land_255_period.
  - replace (i + 256 * k + j) with (i + j + 256 * k) by lia. apply land_255_period.
  - rewrite Z.add_assoc. apply land_255_period.
  - change 255 with (Z.ones 8). rewrite Z.land_ones by lia. reflexivity.
Qed.

Lemma rainbow_as_frames w it s :
  wait_ok w ->
  rainbow w it s
  = foldl (fun s j => frame (fun _ i => wheel (rainbow_pos i j)) s) s (range (256 * it)).
Proof. intros Hw. unfold rainbow. now rewrite rainbow_call_returns. Qed.

Lemma rainbow_cycle_as_frames w it s :
  wait_ok w ->
  rainbow_cycle w it s
  = foldl (fun s j => frame (fun s i => wheel (rainbow_cycle_pos (led_count s) i j)) s)
          s (range (256 * it)).
Proof. intros Hw. unfold rainbow_cycle. now rewrite rainbow_cycle_call_returns. Qed.

Lemma random_colors_as_frames fs s :
  random_colors fs s = foldl (fun s draw => frame (fun _ i => draw i) s) s fs.
Proof. reflexivity. Qed.

(** X3: [rainbow(wait_ms, iterations)] with a wait that time.sleep makes
    (0 to sleep_max_ms milliseconds) returns after flushing 256 frames
    per iteration; with no iteration it does nothing, and otherwise it
    leaves pixel i at wheel((i + 255) & 255), the last frame, whatever
    the number of iterations. *)
Theorem rainbow_result (w it : Z) (s : t) :
  sized s -> 0 <= w <= sleep_max_ms ->
  rainbow_call w it s = Returned (rainbow w it s) /\
  shown (rainbow w it s) = (shown s + Z.to_nat (256 * it))%nat /\
  (it <= 0 -> rainbow w it s = s) /\
  (0 < it ->
   buffer (rainbow w it s)
   = (fun i => wheel (rainbow_pos i 255)) <$> range (led_count s)).
Proof.
  intros Hs Hw.
  split; [unfold rainbow; now rewrite (rainbow_call_returns w it s Hw)|].
  rewrite (rainbow_as_frames w it s Hw).
  destruct (frames_result (fun j _ i => wheel (rainbow_pos i j))
              (fun j i => wheel (rainbow_pos i j)) (led_count s)
              (fun _ _ _ _ => eq_refl) (range (256 * it)) s eq_refl Hs)
    as (_ & Sn & E & B).
  split; [now rewrite Sn, length_range|]. split.
  - intros H. apply E. unfold range. apply seqZ_nil. lia.
  - intros H. rewrite (B (256 * it - 1)) by (apply last_range; lia).
    apply list_fmap_ext. intros _ i _. f_equal.
    replace (256 * it - 1) with (255 + 256 * (it - 1)) by lia.
    unfold rainbow_pos. rewrite Z.add_assoc. apply land_255_period.
Qed.

Lemma rainbow_result_on_main :
  shown (rainbow 20 1 main_controller) = (shown main_controller + 256)%nat /\
  buffer (rainbow 20 1 main_controller)
  = (fun i => wheel (rainbow_pos i 255)) <$> range 30.
Proof.
  assert (Hs : sized main_controller) by reflexivity.
  assert (Hw : 0 <= 20 <= sleep_max_ms) by (unfold sleep_max_ms; lia).
  pose proof (rainbow_result 20 1 main_controller Hs Hw) as (_ & H1 & _ & H2).
  split; [exact H1 | apply H2; lia].
Defined.

(** X4: [rainbow_cycle(wait_ms, iterations)] with a wait that time.sleep
    makes (0 to sleep_max_ms milliseconds) returns after flushing 256
    frames per iteration; with no iteration it does nothing, and
    otherwise it leaves pixel i at
    wheel((int(i * 256 / led_count) + 255) & 255). *)
Theorem rainbow_cycle_result (w it : Z) (s : t) :
  sized s -> 0 <= w <= sleep_max_ms ->
  rainbow_cycle_call w it s = Returned (rainbow_cycle w it s) /\
  shown (rainbow_cycle w it s) = (shown s + Z.to_nat (256 * it))%nat /\
  (it <= 0 -> rainbow_cycle w it s = s) /\
  (0 < it ->
   buffer (rainbow_cycle w it s)
   = (fun i => wheel (rainbow_cycle_pos (led_count s) i 255)) <$> range (led_count s)).
Proof.
  intros Hs Hw.
  split; [unfold rainbow_cycle; now rewrite (rainbow_cycle_call_returns w it s Hw)|].
  rewrite (rainbow_cycle_as_frames w it s Hw).
  destruct (frames_result (fun j s i => wheel (rainbow_cycle_pos (led_count s) i j))
              (fun j i => wheel (rainbow_cycle_pos (led_count s) i j)) (led_count s)
              (fun j s' i (E : led_count s' = led_count s) =>
                 f_equal (fun m => wheel (rainbow_cycle_pos m i j)) E)
              (range (256 * it)) s eq_refl Hs)
    as (_ & Sn & E & B).
  split; [now rewrite Sn, length_range|]. split.
  - intros H. apply E. unfold range. apply seqZ_nil. lia.
  - intros H. rewrite (B (256 * it - 1)) by (apply last_range; lia).
    apply list_fmap_ext. intros _ i _. f_equal.
    replace (256 * it - 1) with (255 + 256 * (it - 1)) by lia.
    unfold rainbow_cycle_pos. rewrite Z.add_assoc. apply land_255_period.
Qed.

Lemma rainbow_cycle_result_on_main :
  shown (rainbow_cycle 20 2 main_controller) = (shown main_controller + 512)%nat /\
  buffer (rainbow_cycle 20 2 main_controller)
  = (fun i => wheel (rainbow_cycle_pos 30 i 255)) <$> range 30.
Proof.
  assert (Hs : sized main_controller) by reflexivity.
  assert (Hw : 0 <= 20 <= sleep_max_ms) by (unfold sleep_max_ms; lia).
  pose proof (rainbow_cycle_result 20 2 main_controller Hs Hw) as (_ & H1 & _ & H2).
  split; [exact H1 | apply H2; lia].
Defined.

(** X5: [random_colors] flushes once per frame drawn; when the clock allows
    no frame it does nothing, and otherwise the buffer holds the colours
    of the last draw. *)
Theorem random_colors_result (fs : list (Z -> color)) (s : t) :
  sized s ->
  shown (random_colors fs s) = (shown s + length fs)%nat /\
  (fs = [] -> random_colors fs s = s) /\
  (forall draw, last fs = Some draw ->
     buffer (random_colors fs s) = draw <$> range (led_count s)).
Proof.
  intros Hs. rewrite random_colors_as_frames.
  destruct (frames_result (fun (draw : Z -> color) (_ : t) i => draw i)
              (fun draw i => draw i) (led_count s)
              (fun _ _ _ _ => eq_refl) fs s eq_refl Hs)
    as (_ & Sn & E & B).
  split; [exact Sn|]. split; [exact E|]. intros draw H. now rewrite (B draw H).
Qed.

Lemma random_colors_result_on_main :
  shown (random_colors [fun i => (i, 0, 0); fun i => (0, i, 9)] main_controller)
  = (shown main_controller + 2)%nat /\
  buffer (random_colors [fun i => (i, 0, 0); fun i => (0, i, 9)] main_controller)
  = (fun i => (0, i, 9)) <$> range 30.
Proof.
  assert (Hs : sized main_controller) by reflexivity.
  pose proof (random_colors_result [fun i => (i, 0, 0); fun i => (0, i, 9)]
                main_controller Hs) as (H1 & _ & H2).
  split; [exact H1 | apply H2; reflexivity].
Defined.

(** ** The theater chase *)

Lemma theater_chase_as_turns c w n s :
  wait_ok w ->
  theater_chase c w n s = foldl (fun s _ => foldl (chase_turn c) s (range 3)) s (range n).
Proof. intros Hw. unfold theater_chase. now rewrite theater_chase_call_returns. Qed.

Lemma chase_candidates_spec n q x :
  x ∈ chase_candidates n q <-> exists k, 0 <= k < (n + 2) / 3 /\ x = 3 * k + q.
Proof.
  unfold chase_candidates, range_step. cbn [Z.ltb Z.compare].
  rewrite <- list_fmap_compose, list_elem_of_fmap.
  replace ((n - 0 + 3 - 1) / 3) with ((n + 2) / 3) by (f_equal; lia).
  split.
  - intros (k & -> & Hk). apply elem_of_seqZ in Hk. exists k. cbn. lia.
  - intros (k & Hk & ->). exists k. split; [cbn; lia | apply elem_of_seqZ; lia].
Qed.

(** Every pixel of the strip is a candidate of exactly the turn given by
    its index modulo 3. *)
Lemma chase_candidates_cover n j :
  0 <= j < n -> j ∈ chase_candidates n (j mod 3).
Proof.
  intros H. apply chase_candidates_spec. exists (j / 3).
  split; [|pose proof (Z.div_mod j 3); lia].
  split; [apply Z.div_pos; lia|].
  apply Z.div_lt_upper_bound; [lia|].
  pose proof (Z.mul_div_le (n + 2) 3). pose proof (Z.mod_pos_bound (n + 2) 3).
  pose proof (Z.div_mod (n + 2) 3). lia.
Qed.

Lemma buffer_chase_pass c q s :
  sized s ->
  let s' := foldl (fun s i => set_pixel (i + q) c s) s (range_step 0 (led_count s) 3) in
  shape s' = shape s /\
  shown s' = shown s /\
  forall j : nat, (j < Z.to_nat (led_count s))%nat ->
    buffer s' !! j
    = if decide (Z.of_nat j ∈ chase_candidates (led_count s) q) then Some c
      else buffer s !! j.
Proof.
  intros Hs. cbn zeta. rewrite chase_pass_candidates.
  destruct (buffer_paint_list (fun _ _ => c) (fun _ => c) (led_count s)
              (fun _ _ _ => eq_refl) (chase_candidates (led_count s) q) s eq_refl Hs)
    as [Sh B].
  split; [exact Sh|]. split; [|exact B].
  apply (foldl_invariant (fun s' => shown s' = shown s)); [reflexivity|].
  intros s' i _ <-. apply shown_set_pixel.
Qed.

(** One turn flushes once and leaves its candidates black. *)
Lemma chase_turn_result c q s :
  sized s ->
  shape (chase_turn c s q) = shape s /\
  shown (chase_turn c s q) = S (shown s) /\
  forall j : nat, (j < Z.to_nat (led_count s))%nat ->
    buffer (chase_turn c s q) !! j
    = if decide (Z.of_nat j ∈ chase_candidates (led_count s) q) then Some (0, 0, 0)
      else buffer s !! j.
Proof.
  intros Hs. unfold chase_turn. cbn zeta.
  destruct (buffer_chase_pass c q s Hs) as (Sh1 & Sn1 & B1).
  set (s1 := foldl _ s (range_step 0 (led_count s) 3)) in *.
  set (s2 := on_strip PixelStrip.show s1).
  assert (Sh2 : shape s2 = shape s) by (unfold s2; now rewrite shape_show).
  assert (L2 : led_count s2 = led_count s).
  { unfold shape in Sh2. now injection Sh2. }
  destruct (buffer_chase_pass (0, 0, 0) q s2 (sized_shape _ _ Sh2 Hs)) as (Sh3 & Sn3 & B3).
  split; [congruence|]. split.
  - rewrite Sn3. unfold s2. rewrite shown_show. now rewrite Sn1.
  - intros j Hj. rewrite B3 by (rewrite L2; exact Hj). rewrite L2.
    destruct (decide (Z.of_nat j ∈ chase_candidates (led_count s) q)) as [Hin|Hin];
      [reflexivity|].
    change (buffer s2) with (buffer s1). rewrite (B1 j Hj).
    now rewrite decide_False by exact Hin.
Qed.

(** One iteration: three turns, three flushes, every pixel black. *)
Lemma chase_iteration_result c s :
  sized s ->
  let s' := foldl (chase_turn c) s (range 3) in
  shape s' = shape s /\
  shown s' = (shown s + 3)%nat /\
  buffer s' = replicate (Z.to_nat (led_count s)) (0, 0, 0).
Proof.
  intros Hs. change (range 3) with [0; 1; 2]. cbn [foldl].
  destruct (chase_turn_result c 0 s Hs) as (Sh0 & Sn0 & B0).
  set (s0 := chase_turn c s 0) in *.
  assert (L0 : led_count s0 = led_count s) by exact (shape_led_count _ _ Sh0).
  destruct (chase_turn_result c 1 s0 (sized_shape _ _ Sh0 Hs)) as (Sh1 & Sn1 & B1).
  set (s1 := chase_turn c s0 1) in *.
  assert (L1 : led_count s1 = led_count s) by (rewrite <- L0; exact (shape_led_count _ _ Sh1)).
  assert (Hs1 : sized s1) by (apply (sized_shape s0); [exact Sh1 | now apply (sized_shape s)]).
  destruct (chase_turn_result c 2 s1 Hs1) as (Sh2 & Sn2 & B2).
  set (s2 := chase_turn c s1 2) in *.
  split; [now rewrite Sh2, Sh1|]. split; [lia|].
  apply list_eq. intros j.
  destruct (decide (j < Z.to_nat (led_count s))%nat) as [Hj|Hj].
  - rewrite lookup_replicate_2 by exact Hj.
    rewrite B2 by (rewrite L1; exact Hj). rewrite L1.
    destruct (decide (Z.of_nat j ∈ chase_candidates (led_count s) 2)) as [|N2]; [reflexivity|].
    rewrite B1 by (rewrite L0; exact Hj). rewrite L0.
    destruct (decide (Z.of_nat j ∈ chase_candidates (led_count s) 1)) as [|N1]; [reflexivity|].
    rewrite B0 by exact Hj.
    destruct (decide (Z.of_nat j ∈ chase_candidates (led_count s) 0)) as [|N0]; [reflexivity|].
    exfalso. pose proof (chase_candidates_cover (led_count s) (Z.of_nat j)) as C.
    pose proof (Z.mod_pos_bound (Z.of_nat j) 3) as M.
    assert (Hq : Z.of_nat j mod 3 = 0 \/ Z.of_nat j mod 3 = 1 \/ Z.of_nat j mod 3 = 2) by lia.
    destruct Hq as [E|[E|E]]; rewrite E in C; [apply N0 | apply N1 | apply N2];
      apply C; lia.
  - assert (Hs2 : sized s2) by (apply (sized_shape s1); [exact Sh2 | exact Hs1]).
    unfold sized in Hs2. fold (buffer s2) in Hs2.
    assert (L2 : led_count s2 = led_count s) by (rewrite <- L1; exact (shape_led_count _ _ Sh2)).
    transitivity (@None color).
    + apply lookup_ge_None. rewrite Hs2, L2. lia.
    + symmetry. apply lookup_replicate_None. lia.
Qed.

Lemma range_snoc n : 0 < n -> range n = range (n - 1) ++ [n - 1].
Proof.
  intros H. unfold range. replace n with (Z.of_nat (S (Z.to_nat (n - 1)))) at 1 by lia.
  rewrite seqZ_S. rewrite Z2Nat.id by lia. reflexivity.
Qed.

(** The calls of a loop over [set_pixel]: one write per index inside the
    strip, in the order of the list. *)
Lemma calls_paint_list c (l : list Z) : forall s,
  PixelStrip.calls (strip (foldl (fun s k => set_pixel k c s) s l))
  = PixelStrip.calls (strip s)
    ++ ((fun k => PixelStrip.CallSetPixelColor k c)
          <$> filter (fun k => 0 <= k < led_count s) l).
Proof.
  induction l as [|k l IH]; intros s; cbn [foldl].
  - cbn. now rewrite app_nil_r.
  - rewrite IH. rewrite (shape_led_count _ _ (shape_set_pixel k c s)).
    rewrite filter_cons. destruct (decide (0 <= k < led_count s)) as [Hk|Hk].
    + destruct (pixels_set_pixel_inside k c s Hk) as (_ & _ & C).
      rewrite C, fmap_cons, <- app_assoc. reflexivity.
    + now rewrite set_pixel_outside by exact Hk.
Qed.

Lemma chase_iteration_last_call c s :
  3 <= led_count s ->
  exists k, last_call (foldl (chase_turn c) s (range 3))
            = Some (PixelStrip.CallSetPixelColor k (0, 0, 0)).
Proof.
  intros H. change (range 3) with [0; 1; 2]. cbn [foldl].
  set (s1 := chase_turn c (chase_turn c s 0) 1).
  assert (L1 : led_count s1 = led_count s).
  { unfold s1, chase_turn. cbn zeta.
    repeat (rewrite (kept_chase_pass led_count) by reflexivity; cbn [on_strip led_count]).
    reflexivity. }
  unfold last_call, chase_turn. cbn zeta. rewrite chase_pass_candidates, calls_paint_list.
  set (s2 := on_strip PixelStrip.show _).
  assert (L2 : led_count s2 = led_count s).
  { unfold s2. cbn [on_strip led_count].
    rewrite (kept_chase_pass led_count) by reflexivity. exact L1. }
  rewrite L2.
  set (w := filter _ _).
  assert (Hw : is_Some (last w)).
  { apply last_is_Some. intros E.
    assert (Hin : 2 ∈ w).
    { apply list_elem_of_filter. split; [lia|].
      apply chase_candidates_spec. exists 0. split; [|lia].
      split; [lia|]. apply Z.div_str_pos. lia. }
    rewrite E in Hin. now apply not_elem_of_nil in Hin. }
  destruct Hw as [k Hk]. exists k.
  rewrite last_app, fmap_last, Hk. reflexivity.
Qed.

Lemma chase_iterations_result c (l : list Z) s :
  sized s ->
  shape (foldl (fun s _ => foldl (chase_turn c) s (range 3)) s l) = shape s /\
  shown (foldl (fun s _ => foldl (chase_turn c) s (range 3)) s l)
  = (shown s + 3 * length l)%nat.
Proof.
  intros Hs. induction l as [|x l IH] using rev_ind; [cbn; split; [reflexivity|lia]|].
  destruct IH as [Sh Sn]. rewrite foldl_snoc.
  destruct (chase_iteration_result c _ (sized_shape _ _ Sh Hs)) as (Sh' & Sn' & _).
  split; [congruence|]. rewrite Sn', Sn, length_app. cbn. lia.
Qed.

(** X6: [theater_chase(color, wait_ms, iterations)] with a wait that
    time.sleep makes (0 to sleep_max_ms milliseconds) returns after
    flushing three times per iteration; with no iteration it does
    nothing, and otherwise it leaves every pixel of the buffer black, and
    on a strip of at least 3 LEDs its last call is a write of black, not
    a flush: the last turn's pixels are put out in the buffer only. *)
Theorem theater_chase_result (c : color) (w n : Z) (s : t) :
  sized s -> 0 <= w <= sleep_max_ms ->
  theater_chase_call c w n s = Returned (theater_chase c w n s) /\
  shown (theater_chase c w n s) = (shown s + 3 * Z.to_nat n)%nat /\
  (n <= 0 -> theater_chase c w n s = s) /\
  (0 < n ->
   buffer (theater_chase c w n s) = replicate (Z.to_nat (led_count s)) (0, 0, 0) /\
   (3 <= led_count s ->
    exists k, last_call (theater_chase c w n s)
              = Some (PixelStrip.CallSetPixelColor k (0, 0, 0)))).
Proof.
  intros Hs Hw.
  split; [unfold theater_chase; now rewrite (theater_chase_call_returns c w n s Hw)|].
  rewrite (theater_chase_as_turns c w n s Hw).
  pose proof (fun l => chase_iterations_result c l s Hs) as Inv.
  split; [|split].
  - destruct (Inv (range n)) as [_ Sn]. now rewrite Sn, length_range.
  - intros H. unfold range at 2. now rewrite (seqZ_nil 0 n) by lia.
  - intros H. rewrite (range_snoc n H), foldl_snoc.
    destruct (Inv (range (n - 1))) as [Sh _].
    set (s1 := foldl _ s (range (n - 1))) in *.
    destruct (chase_iteration_result c s1 (sized_shape _ _ Sh Hs)) as (_ & _ & B).
    rewrite (shape_led_count _ _ Sh) in B. split; [exact B|].
    intros H3. apply chase_iteration_last_call.
    now rewrite (shape_led_count _ _ Sh).
Qed.

Lemma theater_chase_result_on_main :
  shown (theater_chase (127, 127, 127) 50 3 main_controller)
  = (shown main_controller + 9)%nat /\
  buffer (theater_chase (127, 127, 127) 50 3 main_controller) = replicate 30 (0, 0, 0).
Proof.
  assert (Hs : sized main_controller) by reflexivity.
  assert (Hw : 0 <= 50 <= sleep_max_ms) by (unfold sleep_max_ms; lia).
  pose proof (theater_chase_result (127, 127, 127) 50 3 main_controller Hs Hw)
    as (_ & H1 & _ & H2).
  split; [exact H1|]. apply H2. lia.
Defined.

(** ** Painting the whole strip *)

Lemma calls_write_list c (l : list Z) : forall s,
  PixelStrip.calls
    (strip (foldl (fun s i => on_strip (PixelStrip.setPixelColor i c) s) s l))
  = PixelStrip.calls (strip s) ++ ((fun i => PixelStrip.CallSetPixelColor i c) <$> l).
Proof.
  induction l as [|i l IH]; intros s; cbn [foldl].
  - cbn. now rewrite app_nil_r.
  - rewrite IH. cbn. now rewrite <- app_assoc.
Qed.

(** X7: [set_all_pixels(color)] writes the slots 0, 1, ..., led_count - 1 in
    this order and nothing else: it does not flush, it keeps the
    scalars, and it leaves every slot of the buffer at the colour. *)
Theorem set_all_pixels_result (c : color) (s : t) :
  sized s ->
  buffer (set_all_pixels c s) = replicate (Z.to_nat (led_count s)) c /\
  issued s (set_all_pixels c s)
  = ((fun i => PixelStrip.CallSetPixelColor i c) <$> range (led_count s)) /\
  shown (set_all_pixels c s) = shown s /\
  scalars (set_all_pixels c s) = scalars s.
Proof.
  intros Hs. split; [now apply pixels_set_all_pixels|].
  split; [|split; [apply shown_set_all_pixels
                  | apply (kept_set_all_pixels scalars scalars_write)]].
  unfold issued, set_all_pixels. destruct c as [[r g] b].
  rewrite (calls_write_list (r, g, b)). apply drop_app_length.
Qed.

Lemma set_all_pixels_result_on_ten :
  buffer (set_all_pixels red ten_pixel_strip) = replicate 10 red /\
  shown (set_all_pixels red ten_pixel_strip) = shown ten_pixel_strip.
Proof.
  assert (Hs : sized ten_pixel_strip) by reflexivity.
  pose proof (set_all_pixels_result red ten_pixel_strip Hs) as (H1 & _ & H2 & _).
  split; [exact H1 | exact H2].
Defined.

(** Paint the whole strip and flush: one flush, every slot the colour. *)
Lemma painted_flushed_result c s :
  sized s ->
  shape (on_strip PixelStrip.show (set_all_pixels c s)) = shape s /\
  shown (on_strip PixelStrip.show (set_all_pixels c s)) = S (shown s) /\
  buffer (on_strip PixelStrip.show (set_all_pixels c s))
  = replicate (Z.to_nat (led_count s)) c.
Proof.
  intros Hs. split; [|split].
  - rewrite shape_show. apply (kept_set_all_pixels shape shape_write).
  - now rewrite shown_show, shown_set_all_pixels.
  - now apply pixels_set_all_pixels.
Qed.

(** ** Writes to single pixels *)

(** X8: on a buffer of [led_count] slots a second write to the same pixel
    replaces the first, and writes to different pixels can be swapped. *)
Theorem set_pixel_overwrites_and_commutes (i j : Z) (c d : color) (s : t) :
  sized s ->
  buffer (set_pixel i d (set_pixel i c s)) = buffer (set_pixel i d s) /\
  (i <> j ->
   buffer (set_pixel i c (set_pixel j d s)) = buffer (set_pixel j d (set_pixel i c s))).
Proof.
  intros Hs.
  assert (S1 : forall k e, sized (set_pixel k e s)).
  { intros k e. apply (sized_shape s); [apply shape_set_pixel | exact Hs]. }
  assert (L1 : forall k e, led_count (set_pixel k e s) = led_count s).
  { intros k e. apply shape_led_count, shape_set_pixel. }
  split; [|intros Hij]; apply list_eq; intros m;
    rewrite !buffer_set_pixel by auto; rewrite !L1;
    repeat case_decide; try reflexivity; lia.
Qed.

Lemma set_pixel_overwrites_and_commutes_on_ten :
  buffer (set_pixel 3 black (set_pixel 3 red ten_pixel_strip))
  = buffer (set_pixel 3 black ten_pixel_strip) /\
  buffer (set_pixel 3 red (set_pixel 4 black ten_pixel_strip))
  = buffer (set_pixel 4 black (set_pixel 3 red ten_pixel_strip)).
Proof.
  assert (Hs : sized ten_pixel_strip) by reflexivity.
  pose proof (set_pixel_overwrites_and_commutes 3 4 red black ten_pixel_strip Hs) as [H1 H2].
  split; [exact H1 | apply H2; lia].
Defined.

(** ** The colour wheel as a cycle *)

(** X9: for every integer position the channels of wheel add up to 255 and
    one of them is 0; for positions 0 to 254 the step to the next
    position changes no channel by more than 3, and position 255 gives
    the colour of position 0 again. *)
Theorem wheel_is_closed_cycle (pos : Z) :
  (let '(r, g, b) := wheel pos in r + g + b = 255 /\ (r = 0 \/ g = 0 \/ b = 0)) /\
  (0 <= pos < 255 -> channel_step (wheel pos) (wheel (pos + 1)) = 3) /\
  wheel 255 = wheel 0.
Proof.
  split; [|split; [|reflexivity]].
  - unfold wheel. destruct (pos <? 85); [|destruct (pos <? 170)]; cbn zeta; lia.
  - intros H. unfold wheel, channel_step.
    destruct (pos <? 85) eqn:E1; destruct (pos + 1 <? 85) eqn:E2;
      destruct (pos <? 170) eqn:E3; destruct (pos + 1 <? 170) eqn:E4;
      cbn zeta; lia.
Qed.

Lemma wheel_is_closed_cycle_at_84 : channel_step (wheel 84) (wheel 85) = 3.
Proof. apply (wheel_is_closed_cycle 84). lia. Defined.

(** X10: the positions 0 to 254 give 255 different colours. *)
Theorem wheel_injective (p q : Z) :
  0 <= p < 255 -> 0 <= q < 255 -> p <> q -> wheel p <> wheel q.
Proof.
  intros Hp Hq Hne. unfold wheel.
  destruct (p <? 85) eqn:E1; destruct (q <? 85) eqn:E2;
    destruct (p <? 170) eqn:E3; destruct (q <? 170) eqn:E4;
    cbn zeta; intros H; inversion H; lia.
Qed.

Lemma wheel_injective_at_ends : wheel 0 <> wheel 254.
Proof. apply (wheel_injective 0 254); lia. Defined.

(** ** Police lights and the breathing effect *)

Lemma police_round_result s :
  sized s ->
  shape (police_round s) = shape s /\
  shown (police_round s) = (shown s + 4)%nat /\
  buffer (police_round s) = replicate (Z.to_nat (led_count s)) (0, 0, 0).
Proof.
  intros Hs. unfold police_round. cbn zeta.
  destruct (painted_flushed_result (255, 0, 0) s Hs) as (Sh1 & Sn1 & _).
  set (s1 := on_strip PixelStrip.show (set_all_pixels (255, 0, 0) s)) in *.
  destruct (painted_flushed_result (0, 0, 0) s1 (sized_shape _ _ Sh1 Hs)) as (Sh2 & Sn2 & _).
  set (s2 := on_strip PixelStrip.show (set_all_pixels (0, 0, 0) s1)) in *.
  assert (Hs2 : sized s2) by (apply (sized_shape s1); [exact Sh2 | now apply (sized_shape s)]).
  destruct (painted_flushed_result (0, 0, 255) s2 Hs2) as (Sh3 & Sn3 & _).
  set (s3 := on_strip PixelStrip.show (set_all_pixels (0, 0, 255) s2)) in *.
  assert (Hs3 : sized s3) by (apply (sized_shape s2); [exact Sh3 | exact Hs2]).
  destruct (painted_flushed_result (0, 0, 0) s3 Hs3) as (Sh4 & Sn4 & B4).
  assert (Sh : shape s3 = shape s) by (now rewrite Sh3, Sh2).
  split; [now rewrite Sh4|]. split; [lia|].
  now rewrite B4, (shape_led_count _ _ Sh).
Qed.

Lemma police_rounds_result (k : nat) s :
  sized s ->
  shape (Nat.iter k police_round s) = shape s /\
  shown (Nat.iter k police_round s) = (shown s + 4 * k)%nat.
Proof.
  intros Hs. induction k as [|k [Sh Sn]]; [cbn; split; [reflexivity | lia]|].
  change (Nat.iter (S k) police_round s) with (police_round (Nat.iter k police_round s)).
  destruct (police_round_result _ (sized_shape _ _ Sh Hs)) as (Sh' & Sn' & _).
  split; [congruence | lia].
Qed.

(** X11: [police_lights] flushes four times per round (red, off, blue, off);
    when the clock allows no round it does nothing, and otherwise it
    leaves every pixel black, with the blackout flushed. *)
Theorem police_lights_result (rounds : nat) (s : t) :
  sized s ->
  shown (police_lights rounds s) = (shown s + 4 * rounds)%nat /\
  (rounds = 0%nat -> police_lights rounds s = s) /\
  ((0 < rounds)%nat ->
   buffer (police_lights rounds s) = replicate (Z.to_nat (led_count s)) (0, 0, 0) /\
   last_call (police_lights rounds s) = Some PixelStrip.CallShow).
Proof.
  intros Hs. unfold police_lights.
  pose proof (fun k => police_rounds_result k s Hs) as Inv.
  split; [apply Inv|]. split; [now intros ->|].
  intros H. destruct rounds as [|k]; [lia|].
  change (Nat.iter (S k) police_round s) with (police_round (Nat.iter k police_round s)).
  destruct (Inv k) as [Sh _].
  destruct (police_round_result _ (sized_shape _ _ Sh Hs)) as (_ & _ & B).
  split; [now rewrite B, (shape_led_count _ _ Sh)|].
  unfold last_call, police_round. cbn. apply last_snoc.
Qed.

Lemma police_lights_result_on_main :
  shown (police_lights 2 main_controller) = (shown main_controller + 8)%nat /\
  buffer (police_lights 2 main_controller) = replicate 30 (0, 0, 0).
Proof.
  assert (Hs : sized main_controller) by reflexivity.
  pose proof (police_lights_result 2 main_controller Hs) as (H1 & _ & H2).
  split; [exact H1|]. apply H2. lia.
Defined.

Lemma breathe_step_result c level s :
  sized s ->
  shape (breathe_step c s level) = shape s /\
  shown (breathe_step c s level) = S (shown s) /\
  buffer (breathe_step c s level) = replicate (Z.to_nat (led_count s)) c.
Proof.
  intros Hs. unfold breathe_step.
  destruct (painted_flushed_result c (set_brightness level s) Hs) as (Sh & Sn & B).
  split; [exact Sh|]. split; [now rewrite Sn, shown_level | exact B].
Qed.

(** A fade over a list of levels: one flush per level. *)
Lemma fade_result c (levels : list Z) s :
  sized s ->
  shape (foldl (breathe_step c) s levels) = shape s /\
  shown (foldl (breathe_step c) s levels) = (shown s + length levels)%nat /\
  (levels <> [] ->
   buffer (foldl (breathe_step c) s levels) = replicate (Z.to_nat (led_count s)) c).
Proof.
  intros Hs. induction levels as [|x l IH] using rev_ind.
  - cbn. split; [reflexivity|]. split; [lia | congruence].
  - destruct IH as (Sh & Sn & _). rewrite foldl_snoc.
    destruct (breathe_step_result c x _ (sized_shape _ _ Sh Hs)) as (Sh' & Sn' & B).
    split; [congruence|]. split; [rewrite Sn', Sn, length_app; cbn; lia|].
    intros _. now rewrite B, (shape_led_count _ _ Sh).
Qed.

(** One cycle of the breathing effect: fade in, fade out. *)
Lemma breathing_cycle_result c s :
  sized s ->
  let s' := foldl (breathe_step c)
                  (foldl (breathe_step c) s (range_step 0 255 5))
                  (range_step 255 0 (-5)) in
  shape s' = shape s /\
  shown s' = (shown s + 102)%nat /\
  buffer s' = replicate (Z.to_nat (led_count s)) c.
Proof.
  intros H0. cbn zeta.
  destruct (fade_result c (range_step 0 255 5) s H0) as (Sh1 & Sn1 & _).
  destruct (fade_result c (range_step 255 0 (-5)) _ (sized_shape _ _ Sh1 H0))
    as (Sh2 & Sn2 & B2).
  split; [congruence|]. split.
  - rewrite Sn2, Sn1. change (length (range_step 0 255 5)) with 51%nat.
    change (length (range_step 255 0 (-5))) with 51%nat. lia.
  - rewrite B2 by discriminate. now rewrite (shape_led_count _ _ Sh1).
Qed.

Lemma breathing_cycles_result c (l : list Z) s :
  sized s ->
  let cycle := fun (s : t) (_ : Z) =>
                 foldl (breathe_step c)
                       (foldl (breathe_step c) s (range_step 0 255 5))
                       (range_step 255 0 (-5)) in
  shape (foldl cycle s l) = shape s /\
  shown (foldl cycle s l) = (shown s + 102 * length l)%nat.
Proof.
  intros Hs cycle. induction l as [|x l IH] using rev_ind; [cbn; split; [reflexivity | lia]|].
  destruct IH as [Sh Sn]. rewrite foldl_snoc.
  destruct (breathing_cycle_result c _ (sized_shape _ _ Sh Hs)) as (Sh' & Sn' & _).
  split; [unfold cycle at 1; congruence|].
  unfold cycle at 1. rewrite Sn', Sn, length_app. cbn. lia.
Qed.

(** X12: [breathing_effect(color, cycles)] flushes 102 times per cycle, 51
    levels up and 51 down, and always returns at brightness 255 in the
    controller and in the strip; with no cycle it only sets the
    brightness, and otherwise it leaves every pixel at the colour. *)
Theorem breathing_effect_result (c : color) (cycles : Z) (s : t) :
  sized s ->
  shown (breathing_effect c cycles s) = (shown s + 102 * Z.to_nat cycles)%nat /\
  brightness (breathing_effect c cycles s) = 255 /\
  PixelStrip.brightness (strip (breathing_effect c cycles s)) = 255 /\
  led_count (breathing_effect c cycles s) = led_count s /\
  (cycles <= 0 -> breathing_effect c cycles s = set_brightness 255 s) /\
  (0 < cycles ->
   buffer (breathing_effect c cycles s) = replicate (Z.to_nat (led_count s)) c).
Proof.
  intros Hs. unfold breathing_effect. cbn zeta.
  set (cycle := fun (s : t) (_ : Z) =>
                  foldl (breathe_step c)
                        (foldl (breathe_step c) s (range_step 0 255 5))
                        (range_step 255 0 (-5))).
  pose proof (fun s0 H0 => breathing_cycle_result c s0 H0) as One.
  pose proof (fun l => breathing_cycles_result c l s Hs) as Inv.
  cbn zeta in One, Inv. fold cycle in Inv.
  change (forall s0, sized s0 ->
            shape (cycle s0 0) = shape s0 /\
            shown (cycle s0 0) = (shown s0 + 102)%nat /\
            buffer (cycle s0 0) = replicate (Z.to_nat (led_count s0)) c) in One.
  split; [|split; [reflexivity|split; [reflexivity|split; [|split]]]].
  - rewrite shown_level. destruct (Inv (range cycles)) as [_ Sn].
    now rewrite Sn, length_range.
  - cbn [set_brightness led_count]. destruct (Inv (range cycles)) as [Sh _].
    exact (shape_led_count _ _ Sh).
  - intros H. unfold range. now rewrite seqZ_nil by lia.
  - intros H. change (buffer (set_brightness 255 ?x)) with (buffer x).
    rewrite (range_snoc cycles H), foldl_snoc.
    destruct (Inv (range (cycles - 1))) as [Sh _].
    destruct (One _ (sized_shape _ _ Sh Hs)) as (_ & _ & B).
    change (cycle ?a (cycles - 1)) with (cycle a 0).
    now rewrite B, (shape_led_count _ _ Sh).
Qed.

Lemma breathing_effect_result_on_main :
  shown (breathing_effect (255, 100, 100) 2 main_controller)
  = (shown main_controller + 204)%nat /\
  buffer (breathing_effect (255, 100, 100) 2 main_controller)
  = replicate 30 (255, 100, 100).
Proof.
  assert (Hs : sized main_controller) by reflexivity.
  pose proof (breathing_effect_result (255, 100, 100) 2 main_controller Hs)
    as (H1 & _ & _ & _ & _ & H2).
  split; [exact H1|]. apply H2. lia.
Defined.

(** ** Flushes of a sequence of operations *)

Lemma shown_color_wipe c w s :
  wait_ok w ->
  shown (color_wipe c w s) = (shown s + Z.to_nat (led_count s))%nat.
Proof.
  intros Hw. rewrite (color_wipe_fold c w s Hw). rewrite (shown_loop _ 1).
  - rewrite length_range. lia.
  - intros s' i. rewrite shown_show, shown_set_pixel. lia.
Qed.

Lemma run_shape o s : shape (run o s) = shape s.
Proof. apply (kept_run shape shape_show shape_write shape_level). Qed.

Lemma run_shown o s :
  returns o -> sized s -> shown (run o s) = (shown s + flush_count (led_count s) o)%nat.
Proof.
  intros Ho Hs. destruct o; cbn [run flush_count]; cbn [returns] in Ho.
  - rewrite shown_set_pixel. lia.
  - rewrite shown_set_all_pixels. lia.
  - unfold clear. rewrite shown_show, shown_set_all_pixels. lia.
  - unfold show. rewrite shown_show. lia.
  - rewrite shown_level. lia.
  - now apply shown_color_wipe.
  - rewrite theater_chase_as_turns by exact Ho.
    destruct (chase_iterations_result c (range iterations) s Hs) as [_ E].
    now rewrite E, length_range.
  - rewrite rainbow_as_frames by exact Ho.
    destruct (frames_result (fun j _ i => wheel (rainbow_pos i j))
                (fun j i => wheel (rainbow_pos i j)) (led_count s)
                (fun _ _ _ _ => eq_refl) (range (256 * iterations)) s eq_refl Hs)
      as (_ & E & _).
    now rewrite E, length_range.
  - rewrite rainbow_cycle_as_frames by exact Ho.
    destruct (frames_result (fun j s i => wheel (rainbow_cycle_pos (led_count s) i j))
                (fun j i => wheel (rainbow_cycle_pos (led_count s) i j)) (led_count s)
                (fun j s' i (E : led_count s' = led_count s) =>
                   f_equal (fun m => wheel (rainbow_cycle_pos m i j)) E)
                (range (256 * iterations)) s eq_refl Hs)
      as (_ & E & _).
    now rewrite E, length_range.
  - unfold breathing_effect. cbn zeta. rewrite shown_level.
    destruct (breathing_cycles_result c (range cycles) s Hs) as [_ E].
    cbn zeta in E. now rewrite E, length_range.
  - rewrite random_colors_as_frames.
    destruct (frames_result (fun (draw : Z -> color) (_ : t) i => draw i)
                (fun draw i => draw i) (led_count s)
                (fun _ _ _ _ => eq_refl) frames s eq_refl Hs)
      as (_ & E & _).
    exact E.
  - unfold police_lights. apply (police_rounds_result rounds s Hs).
Qed.

Lemma program_shape (ops : list op) s :
  shape (foldl (fun s o => run o s) s ops) = shape s.
Proof.
  apply (foldl_invariant (fun s' => shape s' = shape s)); [reflexivity|].
  intros s' o _ <-. apply run_shape.
Qed.

Lemma program_result (ops : list op) s :
  Forall returns ops -> sized s ->
  shape (foldl (fun s o => run o s) s ops) = shape s /\
  shown (foldl (fun s o => run o s) s ops)
  = (shown s + sum_list_with (flush_count (led_count s)) ops)%nat.
Proof.
  intros Ho Hs. split; [apply program_shape|].
  induction ops as [|o ops IH] using rev_ind; [cbn; lia|].
  apply Forall_app in Ho as [Ho1 Ho2]. apply Forall_cons in Ho2 as [Ho2 _].
  rewrite foldl_snoc.
  rewrite run_shown; [|exact Ho2 | exact (sized_shape _ _ (program_shape ops s) Hs)].
  rewrite (IH Ho1), (shape_led_count _ _ (program_shape ops s)), sum_list_with_app.
  cbn. lia.
Qed.

(** ** The demo *)

Lemma demo_sequence_as_program k s :
  Program.demo_sequence k s = foldl (fun s o => run o s) s (Program.demo_ops k).
Proof.
  unfold Program.demo_sequence, Program.demo_ops. cbn [foldl run]. reflexivity.
Qed.

(** X13: [demo_sequence] ends with every pixel black and flushed, on a strip
    of unchanged length, at brightness 255 in the controller and in the
    strip whatever the brightness was before, after
    3 * led_count + 982 flushes plus one per random frame and four per
    police round. *)
Theorem demo_sequence_result (k : Program.oracle) (s : t) :
  sized s ->
  buffer (Program.demo_sequence k s) = replicate (Z.to_nat (led_count s)) (0, 0, 0) /\
  last_call (Program.demo_sequence k s) = Some PixelStrip.CallShow /\
  led_count (Program.demo_sequence k s) = led_count s /\
  brightness (Program.demo_sequence k s) = 255 /\
  PixelStrip.brightness (strip (Program.demo_sequence k s)) = 255 /\
  shown (Program.demo_sequence k s)
  = (shown s + (3 * Z.to_nat (led_count s) + 982
                + length (Program.frames k) + 4 * Program.rounds k))%nat.
Proof.
  intros Hs.
  assert (Hr : Forall returns (Program.demo_ops k)).
  { unfold Program.demo_ops.
    repeat (apply Forall_cons; split;
            [cbn [returns]; unfold wait_ok, sleep_max_ms; try lia; try exact I|]).
    constructor. }
  destruct (program_result (Program.demo_ops k) s Hr Hs) as [Sh Sn].
  rewrite <- demo_sequence_as_program in Sh, Sn.
  assert (Sc : exists y, scalars (Program.demo_sequence k s)
                         = scalars (breathing_effect (255, 100, 100) 2 y)).
  { unfold Program.demo_sequence. cbn zeta. eexists.
    rewrite (kept_clear scalars scalars_show scalars_write).
    rewrite (kept_police_lights scalars scalars_show scalars_write).
    apply (kept_frames scalars scalars_show scalars_write
             (fun (draw : Z -> color) (_ : t) i => draw i)). }
  destruct Sc as [y Sc].
  split; [|split; [|split; [|split; [|split]]]].
  - unfold Program.demo_sequence. cbn zeta.
    set (x := police_lights _ _).
    assert (Shx : shape x = shape s).
    { rewrite <- (run_shape Clear x). exact Sh. }
    unfold clear. change (buffer (on_strip PixelStrip.show ?y)) with (buffer y).
    unfold buffer. rewrite pixels_set_all_pixels by exact (sized_shape _ _ Shx Hs).
    now rewrite (shape_led_count _ _ Shx).
  - unfold Program.demo_sequence, last_call, clear. cbn. apply last_snoc.
  - exact (shape_led_count _ _ Sh).
  - apply (f_equal (fun x => snd (fst x)) Sc).
  - apply (f_equal snd Sc).
  - rewrite Sn. unfold Program.demo_ops. cbn [flush_count sum_list_with].
    change (Z.to_nat (256 * 1)) with 256%nat. change (Z.to_nat (256 * 2)) with 512%nat.
    change (Z.to_nat 3) with 3%nat. change (Z.to_nat 2) with 2%nat. lia.
Qed.

Lemma demo_sequence_result_on_main :
  buffer (Program.demo_sequence (Program.mk_oracle [fun i => (i, 0, 0)] 1) main_controller)
  = replicate 30 (0, 0, 0) /\
  brightness (Program.demo_sequence (Program.mk_oracle [fun i => (i, 0, 0)] 1) main_controller)
  = 255.
Proof.
  assert (Hs : sized main_controller) by reflexivity.
  pose proof (demo_sequence_result (Program.mk_oracle [fun i => (i, 0, 0)] 1)
                main_controller Hs) as (H1 & _ & _ & H2 & _).
  split; [exact H1 | exact H2].
Defined.

(** ** The command loop *)

Lemma turn_quit arg k command s :
  Program.turn arg k command s = None <-> command = "quit".
Proof.
  unfold Program.turn. split.
  - destruct (String.eqb_spec command "quit") as [E|_]; [intros _; exact E|].
    repeat (match goal with
            | |- context [if ?b then _ else _] => destruct b; [intros H; discriminate H|]
            end).
    destruct (String.prefix "brightness " command); [destruct (arg command)|];
      intros H; discriminate H.
  - intros ->. reflexivity.
Qed.

(** A command is a (possibly empty) program of operations of the facade. *)
Lemma some_pair_fst {A B : Type} (a a' : A) (b b' : B) :
  Some (a, b) = Some (a', b') -> a' = a.
Proof. intros H. now injection H. Qed.

Lemma turn_as_program arg k command s c msgs :
  Program.turn arg k command s = Some (c, msgs) ->
  exists ops, c = foldl (fun s o => run o s) s ops.
Proof.
  unfold Program.turn.
  destruct (String.eqb command "quit"); [intros H; discriminate H|].
  destruct (String.eqb command "demo").
  { intros H. apply some_pair_fst in H as ->. exists (Program.demo_ops k).
    apply demo_sequence_as_program. }
  destruct (String.eqb command "clear").
  { intros H. apply some_pair_fst in H as ->. exists [Clear]. cbn [foldl run]. reflexivity. }
  destruct (String.eqb command "red").
  { intros H. apply some_pair_fst in H as ->. exists [SetAllPixels (255, 0, 0); Flush]. cbn [foldl run]. reflexivity. }
  destruct (String.eqb command "green").
  { intros H. apply some_pair_fst in H as ->. exists [SetAllPixels (0, 255, 0); Flush]. cbn [foldl run]. reflexivity. }
  destruct (String.eqb command "blue").
  { intros H. apply some_pair_fst in H as ->. exists [SetAllPixels (0, 0, 255); Flush]. cbn [foldl run]. reflexivity. }
  destruct (String.eqb command "rainbow").
  { intros H. apply some_pair_fst in H as ->. exists [RainbowCycle 20 10]. cbn [foldl run]. reflexivity. }
  destruct (String.eqb command "police").
  { intros H. apply some_pair_fst in H as ->. exists [PoliceLights (Program.rounds k)]. cbn [foldl run]. reflexivity. }
  destruct (String.eqb command "random").
  { intros H. apply some_pair_fst in H as ->. exists [RandomColors (Program.frames k)]. cbn [foldl run]. reflexivity. }
  destruct (String.prefix "brightness " command).
  { destruct (arg command) as [n|]; intros H; apply some_pair_fst in H as ->.
    - exists [SetBrightness n]. cbn [foldl run]. reflexivity.
    - exists []. cbn [foldl run]. reflexivity. }
  intros H. apply some_pair_fst in H as ->. exists []. cbn [foldl run]. reflexivity.
Qed.

Lemma interact_as_program arg inputs : forall s,
  exists ops, fst (Program.interact arg inputs s) = foldl (fun s o => run o s) s ops.
Proof.
  induction inputs as [|[k command] rest IH]; intros s; cbn [Program.interact].
  - exists []. reflexivity.
  - destruct (Program.turn arg k command s) as [[c msgs]|] eqn:E; [|exists []; reflexivity].
    destruct (turn_as_program _ _ _ _ _ _ E) as [ops1 ->].
    destruct (IH (foldl (fun s o => run o s) s ops1)) as [ops2 E2].
    destruct (Program.interact arg rest _) as [c' more]. cbn [fst] in *.
    exists (ops1 ++ ops2). now rewrite foldl_app.
Qed.

Lemma program_inside (ops : list op) s :
  emits writes_inside s (foldl (fun s o => run o s) s ops).
Proof.
  apply (foldl_invariant (emits writes_inside s)); [apply emits_refl|].
  intros s' o _ H. apply (emits_trans _ _ _ _ H). apply run_inside.
Qed.

(** X14: whatever is typed, the command loop leaves a controller with the same
    LED count and buffer length, a brightness in [0,255] if it was, and
    has written no pixel outside the strip. *)
Theorem command_loop_is_safe (arg : string -> option Z)
    (inputs : list (Program.oracle * string)) (s : t) :
  sized s -> brightness_ok s ->
  let s' := fst (Program.interact arg inputs s) in
  led_count s' = led_count s /\
  sized s' /\
  brightness_ok s' /\
  Forall (fun i => 0 <= i < led_count s) (PixelStrip.written (issued s s')).
Proof.
  intros Hs Hb. cbn zeta.
  destruct (interact_as_program arg inputs s) as [ops ->].
  pose proof (program_shape ops s) as Sh.
  split; [exact (shape_led_count _ _ Sh)|]. split; [exact (sized_shape _ _ Sh Hs)|].
  split.
  - apply (foldl_invariant brightness_ok); [exact Hb|].
    intros s' o _. apply run_brightness_ok.
  - apply written_inside. apply (emits_issued writes_inside), program_inside.
Qed.

Lemma command_loop_is_safe_on_main :
  led_count
    (fst (Program.interact (fun _ => Some 300)
            [(Program.mk_oracle [] 1, "brightness 300"); (Program.mk_oracle [] 1, "police")]
            main_controller)) = 30 /\
  brightness_ok
    (fst (Program.interact (fun _ => Some 300)
            [(Program.mk_oracle [] 1, "brightness 300"); (Program.mk_oracle [] 1, "police")]
            main_controller)).
Proof.
  assert (Hs : sized main_controller) by reflexivity.
  assert (Hb : brightness_ok main_controller) by (unfold brightness_ok; cbn; lia).
  pose proof (command_loop_is_safe (fun _ => Some 300)
                [(Program.mk_oracle [] 1, "brightness 300"); (Program.mk_oracle [] 1, "police")]
                main_controller Hs Hb) as (H1 & _ & H2 & _).
  split; [exact H1 | exact H2].
Defined.

(** X15: the [brightness <n>] command stores n clamped to [0,255] but reports
    the number typed; when the number cannot be read the controller is
    left as it is and the loop goes on. *)
Theorem brightness_command (arg : string -> option Z) (k : Program.oracle)
    (command : string) (s : t) :
  String.prefix "brightness " command = true ->
  (forall n, arg command = Some n ->
     Program.turn arg k command s
     = Some (set_brightness n s, [Program.BrightnessSet n]) /\
     brightness (set_brightness n s) = Z.max 0 (Z.min 255 n) /\
     (255 < n -> brightness (set_brightness n s) <> n)) /\
  (arg command = None ->
     Program.turn arg k command s = Some (s, [Program.InvalidBrightness])).
Proof.
  intros Hp.
  assert (E : Program.turn arg k command s
              = match arg command with
                | Some n => Some (set_brightness n s, [Program.BrightnessSet n])
                | None => Some (s, [Program.InvalidBrightness])
                end).
  { unfold Program.turn. rewrite Hp.
    repeat (match goal with
            | |- context [String.eqb command ?w] =>
                destruct (String.eqb_spec command w) as [->|_]; [discriminate Hp|]
            end).
    reflexivity. }
  split.
  - intros n Hn. rewrite E, Hn. split; [reflexivity|]. split; [reflexivity|].
    cbn. lia.
  - intros Hn. now rewrite E, Hn.
Qed.

Lemma brightness_command_300 :
  Program.turn (fun _ => Some 300) (Program.mk_oracle [] 0) "brightness 300" main_controller
  = Some (set_brightness 300 main_controller, [Program.BrightnessSet 300]) /\
  brightness (set_brightness 300 main_controller) <> 300.
Proof.
  assert (Hp : String.prefix "brightness " "brightness 300" = true) by reflexivity.
  pose proof (brightness_command (fun _ => Some 300) (Program.mk_oracle [] 0)
                "brightness 300" main_controller Hp) as [H _].
  destruct (H 300 eq_refl) as (H1 & _ & H3).
  split; [exact H1 | apply H3; lia].
Defined.

Lemma interact_app arg (pre more : list (Program.oracle * string)) : forall s,
  Forall Program.goes_on pre ->
  Program.interact arg (pre ++ more) s
  = (fst (Program.interact arg more (fst (Program.interact arg pre s))),
     snd (Program.interact arg pre s)
     ++ snd (Program.interact arg more (fst (Program.interact arg pre s)))).
Proof.
  induction pre as [|[k command] pre IH]; intros s Hpre.
  - cbn. now destruct (Program.interact arg more s).
  - apply Forall_cons in Hpre as [Hc Hpre]. cbn [app Program.interact].
    destruct (Program.turn arg k command s) as [[c msgs]|] eqn:E.
    + rewrite (IH c Hpre). destruct (Program.interact arg pre c) as [c1 m1]. cbn [fst snd].
      now rewrite app_assoc.
    + apply turn_quit in E. now destruct Hc.
Qed.

(** X16: when the last command before [quit] is [red], the program leaves the
    loop, and so ends, with every pixel red and flushed: no call is made
    on the strip after the flush of [red]. *)
Theorem quit_after_red_leaves_strip_red (mem : nat -> color) (arg : string -> option Z)
    (k0 k1 k2 : Program.oracle) (pre rest : list (Program.oracle * string)) :
  Forall Program.goes_on pre ->
  let s' := fst (Program.main_session mem arg k0 (pre ++ (k1, "red") :: (k2, "quit") :: rest)) in
  buffer s' = replicate 30 (255, 0, 0) /\
  last_call s' = Some PixelStrip.CallShow.
Proof.
  intros Hpre. cbn zeta. unfold Program.main_session.
  rewrite interact_app by exact Hpre. cbn [fst].
  set (s0 := Program.demo_sequence k0 (init 30 128 mem)).
  destruct (interact_as_program arg pre s0) as [ops ->].
  assert (Hs0 : sized s0).
  { unfold s0. rewrite demo_sequence_as_program.
    exact (sized_shape _ _ (program_shape (Program.demo_ops k0) _) (sized_init 30 128 mem)). }
  assert (L0 : led_count s0 = 30).
  { unfold s0. rewrite demo_sequence_as_program.
    exact (shape_led_count _ _ (program_shape (Program.demo_ops k0) _)). }
  pose proof (program_shape ops s0) as Sh.
  set (s1 := foldl _ s0 ops) in *.
  change (fst (Program.interact arg ((k1, "red") :: (k2, "quit") :: rest) s1))
    with (show (set_all_pixels (255, 0, 0) s1)).
  split.
  - unfold show. change (buffer (on_strip PixelStrip.show ?y)) with (buffer y).
    unfold buffer. rewrite pixels_set_all_pixels by exact (sized_shape _ _ Sh Hs0).
    now rewrite (shape_led_count _ _ Sh), L0.
  - unfold last_call, show. cbn. apply last_snoc.
Qed.

Lemma quit_after_red_leaves_strip_red_example :
  buffer (fst (Program.main_session (fun _ => (9, 9, 9)) (fun _ => None)
                 (Program.mk_oracle [] 0)
                 ([(Program.mk_oracle [] 0, "clear")]
                    ++ (Program.mk_oracle [] 0, "red")
                    :: (Program.mk_oracle [] 0, "quit") :: [])))
  = replicate 30 (255, 0, 0).
Proof.
  assert (Hpre : Forall Program.goes_on [(Program.mk_oracle [] 0, "clear")]).
  { constructor; [discriminate | constructor]. }
  apply (quit_after_red_leaves_strip_red (fun _ => (9, 9, 9)) (fun _ => None)
           (Program.mk_oracle [] 0) (Program.mk_oracle [] 0) (Program.mk_oracle [] 0)
           [(Program.mk_oracle [] 0, "clear")] [] Hpre).
Defined.

(** * Further properties of the button loop *)

Section ButtonCounting.
Import ArcadeButton ButtonCount.

Lemma count_cons p r rs : count p (r :: rs) = (if p r then 1 else 0) + count p rs.
Proof.
  unfold count. rewrite filter_cons. destruct (p r); case_decide; try congruence.
  - cbn [length]. lia.
  - lia.
Qed.

Lemma count_nonneg p rs : 0 <= count p rs.
Proof. unfold count. lia. Qed.

Lemma poll_cons st x rest :
  poll st (x :: rest) = snd (step st x) :: poll (fst (step st x)) rest.
Proof. cbn [poll]. now destruct (step st x). Qed.

Lemma final_cons st x rest : final st (x :: rest) = final (fst (step st x)) rest.
Proof. reflexivity. Qed.

Lemma press_numbers_cons r rs :
  press_numbers (r :: rs)
  = match r with
    | Some (Pressed n) => n :: press_numbers rs
    | _ => press_numbers rs
    end.
Proof. now destruct r as [[n|]|]. Qed.

Lemma counter_counts_presses samples : forall st,
  press_count (final st samples)
  = press_count st + count is_pressed (poll st samples) /\
  press_numbers (poll st samples)
  = seqZ (press_count st + 1) (count is_pressed (poll st samples)) /\
  last_state (final st samples) = default (last_state st) (last samples).
Proof.
  induction samples as [|x rest IH]; intros st.
  - unfold count. cbn. rewrite Z.add_0_r. repeat split.
  - rewrite poll_cons, final_cons, count_cons, last_cons, press_numbers_cons.
    specialize (IH (fst (step st x))).
    pose proof (count_nonneg is_pressed (poll (fst (step st x)) rest)) as Hc.
    revert IH Hc. unfold step.
    destruct x, (last_state st);
      cbn [fst snd is_pressed press_count last_state];
      intros (IH1 & IH2 & IH3) Hc; rewrite IH1, IH2, IH3;
      (split; [lia|split; [|now destruct (last rest)]]);
      try (now rewrite Z.add_0_l).
    rewrite (seqZ_cons (press_count st + 1)) by lia. f_equal. f_equal; lia.
Qed.

Lemma presses_and_releases samples : forall st,
  count is_pressed (poll st samples) - count is_released (poll st samples)
  = held (last_state (final st samples)) - held (last_state st).
Proof.
  induction samples as [|x rest IH]; intros st.
  - unfold count. cbn. lia.
  - rewrite poll_cons, final_cons, !count_cons.
    specialize (IH (fst (step st x))). revert IH. unfold step.
    destruct x, (last_state st);
      cbn [fst snd is_pressed is_released held last_state]; lia.
Qed.
End ButtonCounting.

(** X17: the press counter of the button loop is the number of presses
    reported, the presses are numbered consecutively from the counter's
    start, and the remembered state is the last sample read. *)
Theorem press_counter_counts (st : ArcadeButton.state) (samples : list ArcadeButton.level) :
  ArcadeButton.press_count (ButtonCount.final st samples)
  = ArcadeButton.press_count st
    + ButtonCount.count ArcadeButton.is_pressed (ArcadeButton.poll st samples) /\
  ButtonCount.press_numbers (ArcadeButton.poll st samples)
  = seqZ (ArcadeButton.press_count st + 1)
         (ButtonCount.count ArcadeButton.is_pressed (ArcadeButton.poll st samples)) /\
  ArcadeButton.last_state (ButtonCount.final st samples)
  = default (ArcadeButton.last_state st) (last samples).
Proof. apply counter_counts_presses. Qed.

(** X18: presses and releases alternate: over any run of samples the presses
    reported exceed the releases by one when the button went from up to
    held down, fall short by one when it went from held down to up, and
    equal them otherwise; from the loop's start (button up) there is at
    most one more press than releases and never fewer. *)
Theorem presses_match_releases (st : ArcadeButton.state) (samples : list ArcadeButton.level) :
  ButtonCount.count ArcadeButton.is_pressed (ArcadeButton.poll st samples)
  - ButtonCount.count ArcadeButton.is_released (ArcadeButton.poll st samples)
  = ButtonCount.held (ArcadeButton.last_state (ButtonCount.final st samples))
    - ButtonCount.held (ArcadeButton.last_state st) /\
  0 <= ButtonCount.count ArcadeButton.is_pressed
         (ArcadeButton.poll ArcadeButton.initial samples)
       - ButtonCount.count ArcadeButton.is_released
           (ArcadeButton.poll ArcadeButton.initial samples) <= 1.
Proof.
  split; [apply presses_and_releases|].
  rewrite presses_and_releases. cbn [ArcadeButton.initial ArcadeButton.last_state ButtonCount.held].
  destruct (ArcadeButton.last_state (ButtonCount.final ArcadeButton.initial samples));
    cbn; lia.
Qed.

(** * The spread of the rainbow cycle *)

(** X19: on a strip of at most 256 LEDs [rainbow_cycle] hands different wheel
    positions to different pixels in every frame, the first pixel being
    at position j mod 256 in frame j. *)
Theorem rainbow_cycle_spreads (n i i' j : Z) :
  0 < n <= 256 -> 0 <= i < i' -> i' < n ->
  rainbow_cycle_pos n i j <> rainbow_cycle_pos n i' j /\
  rainbow_cycle_pos n 0 j = j mod 256.
Proof.
  intros Hn Hi Hi'.
  assert (E : forall y, Z.land y 255 = y mod 256).
  { intros y. change 255 with (Z.ones 8). rewrite Z.land_ones by lia. reflexivity. }
  unfold rainbow_cycle_pos. rewrite !E. split; [|reflexivity].
  rewrite !Z.quot_div_nonneg by lia.
  set (a := i * 256 / n). set (b := i' * 256 / n).
  assert (Ha : 0 <= a) by (apply Z.div_pos; lia).
  assert (Hab : a + 1 <= b).
  { unfold a, b. rewrite <- (Z.div_add (i * 256) 1 n) by lia.
    apply Z.div_le_mono; nia. }
  assert (Hb : b < 256).
  { unfold b. apply Z.div_lt_upper_bound; nia. }
  intros H.
  pose proof (Z.div_mod (a + j) 256). pose proof (Z.div_mod (b + j) 256).
  pose proof (Z.mod_pos_bound (a + j) 256). pose proof (Z.mod_pos_bound (b + j) 256).
  nia.
Qed.

Lemma rainbow_cycle_spreads_on_main :
  rainbow_cycle_pos 30 0 7 <> rainbow_cycle_pos 30 29 7.
Proof. apply (rainbow_cycle_spreads 30 0 29 7); lia. Defined.

(** * Colours handed to the strip *)

Section EmitsColours.
Variable P : Z -> PixelStrip.call -> Prop.
Hypothesis P_show : forall n, P n PixelStrip.CallShow.
Hypothesis P_level : forall n b, P n (PixelStrip.CallSetBrightness b).

(** A colour that may be written to every pixel. *)
Let paintable (c : color) : Prop := forall n i, P n (PixelStrip.CallSetPixelColor i c).

Lemma emits_painted_flushed c s :
  paintable c -> emits P s (on_strip PixelStrip.show (set_all_pixels c s)).
Proof.
  intros Hc. eapply emits_trans; [apply emits_set_all_pixels | apply emits_show, P_show].
  intros i _. apply Hc.
Qed.

Lemma emits_color_wipe c w s : paintable c -> emits P s (color_wipe c w s).
Proof.
  intros Hc. unfold color_wipe, color_wipe_call.
  apply (for_each_invariant (emits P s)); [apply emits_refl|].
  intros s' i _ H. rewrite after_sleep. apply (emits_trans _ _ _ _ H).
  eapply emits_trans; [apply emits_set_pixel | apply emits_show, P_show].
  intros _. apply Hc.
Qed.

Lemma emits_chase_pass c q n s :
  paintable c ->
  emits P s (foldl (fun s i => set_pixel (i + q) c s) s (range_step 0 n 3)).
Proof.
  intros Hc. apply (foldl_invariant (emits P s)); [apply emits_refl|].
  intros s' i _ H. apply (emits_trans _ _ _ _ H). apply emits_set_pixel.
  intros _. apply Hc.
Qed.

Lemma emits_theater_chase c w n s :
  paintable c -> paintable (0, 0, 0) -> emits P s (theater_chase c w n s).
Proof.
  intros Hc Hb. unfold theater_chase, theater_chase_call.
  apply (for_each_invariant (emits P s)); [apply emits_refl|].
  intros s1 _ _ H1. apply (emits_trans _ _ _ _ H1).
  apply (for_each_invariant (emits P s1)); [apply emits_refl|].
  intros s2 q _ H2. apply (emits_trans _ _ _ _ H2). cbn zeta.
  assert (H3 : emits P s2
                 (on_strip PixelStrip.show
                    (foldl (fun s i => set_pixel (i + q) c s) s2
                       (range_step 0 (led_count s2) 3)))).
  { eapply emits_trans; [apply emits_chase_pass, Hc | apply emits_show, P_show]. }
  apply sleep_then_invariant; [exact H3|]. cbn [after].
  apply (emits_trans _ _ _ _ H3), emits_chase_pass, Hb.
Qed.

Lemma emits_breathing_effect c n s : paintable c -> emits P s (breathing_effect c n s).
Proof.
  intros Hc. unfold breathing_effect. cbn zeta.
  assert (F : forall levels s0, emits P s0 (foldl (breathe_step c) s0 levels)).
  { intros levels s0. apply (foldl_invariant (emits P s0)); [apply emits_refl|].
    intros s' b _ H. apply (emits_trans _ _ _ _ H). unfold breathe_step.
    eapply emits_trans; [apply emits_set_brightness, P_level|].
    apply emits_painted_flushed, Hc. }
  eapply emits_trans; [|apply emits_set_brightness, P_level].
  apply (foldl_invariant (emits P s)); [apply emits_refl|].
  intros s1 _ _ H1. apply (emits_trans _ _ _ _ H1).
  eapply emits_trans; apply F.
Qed.

Lemma emits_random_colors fs s :
  (forall draw i, draw ∈ fs -> paintable (draw i)) -> emits P s (random_colors fs s).
Proof.
  intros Hfs. unfold random_colors.
  apply (foldl_invariant (emits P s)); [apply emits_refl|].
  intros s' draw Hd H. apply (emits_trans _ _ _ _ H).
  apply (emits_frame P P_show (fun _ i => draw i)).
  intros _ i _. now apply Hfs.
Qed.

Lemma emits_police_lights rounds s :
  paintable (255, 0, 0) -> paintable (0, 0, 0) -> paintable (0, 0, 255) ->
  emits P s (police_lights rounds s).
Proof.
  intros Hr Hk Hb. unfold police_lights.
  apply (iter_invariant (emits P s)); [apply emits_refl|].
  intros s' H. apply (emits_trans _ _ _ _ H). unfold police_round. cbn zeta.
  eapply emits_trans; [|apply emits_painted_flushed, Hk].
  eapply emits_trans; [|apply emits_painted_flushed, Hb].
  eapply emits_trans; [|apply emits_painted_flushed, Hk].
  apply emits_painted_flushed, Hr.
Qed.
End EmitsColours.

Lemma byte_paintable c n i :
  byte_color c -> writes_bytes n (PixelStrip.CallSetPixelColor i c).
Proof. intros H. exact H. Qed.

Lemma run_bytes o s : byte_op o -> emits writes_bytes s (run o s).
Proof.
  assert (K : byte_color (0, 0, 0)) by (cbn; lia).
  assert (R : byte_color (255, 0, 0)) by (cbn; lia).
  assert (B : byte_color (0, 0, 255)) by (cbn; lia).
  intros Ho. destruct o; cbn [run]; cbn [byte_op] in Ho.
  - apply emits_set_pixel. intros _. exact Ho.
  - apply emits_set_all_pixels. intros i _. exact Ho.
  - unfold clear. apply emits_painted_flushed; [intros; exact I|]. intros n i. exact K.
  - unfold show. apply emits_show. exact I.
  - apply emits_set_brightness. intros b. exact I.
  - apply emits_color_wipe; [intros; exact I|]. intros n i. exact Ho.
  - apply emits_theater_chase; [intros; exact I | intros n i; exact Ho | intros n i; exact K].
  - apply emits_rainbow; [intros; exact I|]. intros i pos _ Hp. now apply wheel_byte_color.
  - apply emits_rainbow_cycle; [intros; exact I|]. intros i pos _ Hp. now apply wheel_byte_color.
  - apply emits_breathing_effect; [intros; exact I | intros; exact I | intros n i; exact Ho].
  - apply emits_random_colors; [intros; exact I|]. intros draw i Hd n j. now apply Ho.
  - apply emits_police_lights; [intros; exact I | intros n i; assumption ..].
Qed.

(** X20: a sequence of operations whose colour arguments are triples of bytes
    hands the strip nothing but triples of bytes; so does the demo when
    the random draws are triples of bytes. *)
Theorem only_byte_colours_written (ops : list op) (s : t) :
  Forall byte_op ops ->
  Forall (writes_bytes (led_count s)) (issued s (foldl (fun s o => run o s) s ops)) /\
  (forall k, (forall draw i, draw ∈ Program.frames k -> byte_color (draw i)) ->
     Forall (writes_bytes (led_count s)) (issued s (Program.demo_sequence k s))).
Proof.
  assert (G : forall l, Forall byte_op l ->
            emits writes_bytes s (foldl (fun s o => run o s) s l)).
  { intros l Hl. apply (foldl_invariant (emits writes_bytes s)); [apply emits_refl|].
    intros s' o Ho H. apply (emits_trans _ _ _ _ H). apply run_bytes.
    rewrite Forall_forall in Hl. now apply Hl. }
  intros Hops. split; [apply (emits_issued writes_bytes), G, Hops|].
  intros k Hk. rewrite demo_sequence_as_program.
  apply (emits_issued writes_bytes), G. unfold Program.demo_ops.
  repeat (apply Forall_cons; split; [cbn; try lia; try exact I|]); [|constructor].
  exact Hk.
Qed.

Lemma only_byte_colours_written_on_main :
  Forall (writes_bytes 30)
         (issued main_controller
            (foldl (fun s o => run o s) main_controller
               [ColorWipe (255, 0, 0) 50; BreathingEffect (255, 100, 100) 2])).
Proof.
  assert (H : Forall byte_op [ColorWipe (255, 0, 0) 50; BreathingEffect (255, 100, 100) 2]).
  { repeat constructor; cbn; lia. }
  exact (proj1 (only_byte_colours_written _ main_controller H)).
Defined.

(** * A wait that time.sleep refuses *)

Lemma for_each_first_raises {B : Type} (body : t -> B -> outcome) x (rest : list B) s s' :
  body s x = Raised s' -> for_each body (x :: rest) s = Raised s'.
Proof. intros E. cbn [for_each]. now rewrite E. Qed.

Lemma range_first n : 0 < n -> range n = 0 :: seqZ 1 (n - 1).
Proof. intros H. unfold range. now rewrite seqZ_cons by lia. Qed.

(** X21: with a negative wait the four routines that sleep for [wait_ms]
    raise at their first sleep (time.sleep's ValueError): color_wipe on a
    strip with at least one LED after exactly one write and one flush,
    rainbow and rainbow_cycle with at least one iteration after their
    first frame, and theater_chase with at least one iteration after the
    first flush, with the pixels of the first turn still lit in the
    buffer; color_wipe on a strip without LEDs makes no turn and
    returns. *)
Theorem negative_wait_raises (c : color) (w n : Z) (s : t) :
  w < 0 ->
  (0 < led_count s ->
   color_wipe_call c w s = Raised (on_strip PixelStrip.show (set_pixel 0 c s)) /\
   issued s (color_wipe c w s)
   = [PixelStrip.CallSetPixelColor 0 c; PixelStrip.CallShow]) /\
  (led_count s <= 0 -> color_wipe_call c w s = Returned s) /\
  (0 < n ->
   rainbow_call w n s = Raised (frame (fun _ i => wheel (rainbow_pos i 0)) s) /\
   rainbow_cycle_call w n s
   = Raised (frame (fun s i => wheel (rainbow_cycle_pos (led_count s) i 0)) s) /\
   theater_chase_call c w n s
   = Raised (on_strip PixelStrip.show
               (foldl (fun s i => set_pixel (i + 0) c s) s
                      (range_step 0 (led_count s) 3)))).
Proof.
  intros Hw. split; [|split].
  - intros Hn.
    assert (E : color_wipe_call c w s
                = Raised (on_strip PixelStrip.show (set_pixel 0 c s))).
    { unfold color_wipe_call. rewrite (range_first _ Hn).
      apply for_each_first_raises. now apply sleep_raises. }
    split; [exact E|]. unfold color_wipe. rewrite E. cbn [after].
    destruct (pixels_set_pixel_inside 0 c s) as (_ & _ & C); [lia|].
    unfold issued. cbn [on_strip strip PixelStrip.show PixelStrip.calls].
    rewrite C, <- app_assoc. apply drop_app_length.
  - intros Hn. unfold color_wipe_call, range. now rewrite seqZ_nil by lia.
  - intros Hn. assert (H256 : 0 < 256 * n) by lia. split; [|split].
    + unfold rainbow_call. rewrite (range_first _ H256).
      apply for_each_first_raises. now apply sleep_raises.
    + unfold rainbow_cycle_call. rewrite (range_first _ H256).
      apply for_each_first_raises. now apply sleep_raises.
    + unfold theater_chase_call. rewrite (range_first _ Hn).
      apply for_each_first_raises. change (range 3) with [0; 1; 2].
      apply for_each_first_raises. cbn zeta. now rewrite sleep_raises.
Qed.

Lemma negative_wait_raises_on_ten :
  color_wipe_call red (-1) ten_pixel_strip
  = Raised (on_strip PixelStrip.show (set_pixel 0 red ten_pixel_strip)) /\
  issued ten_pixel_strip (color_wipe red (-1) ten_pixel_strip)
  = [PixelStrip.CallSetPixelColor 0 red; PixelStrip.CallShow].
Proof.
  assert (Hw : -1 < 0) by lia.
  pose proof (negative_wait_raises red (-1) 1 ten_pixel_strip Hw) as [H _].
  apply H. cbn. lia.
Defined.
